(** * Exact Text Extractor: batch ordering, transcription and document assembly

    A shallow embedding of [src/pdf_to_word/main.py].  Python [str] values
    are sequences of Unicode code points; the builtins the script calls
    ([str.split], [str.strip], [str.join], [str.lower], [re.search] with
    the pattern [(\d+)], [int], [sorted]) are written out on that
    representation.  The remote model, the image decoder and the widget
    layer are the script's collaborators: their answers are read from an
    explicit [World], and everything the script mutates lives in an
    explicit [State].  Of the document library the embedding has what the
    script uses: the elements [add_run] writes into a run for a text, and
    the texts for which it raises. *)

From stdpp Require Import base option list sorting gmap sets strings.
From Stdlib Require Import NArith.
From Stdlib.Strings Require Import Byte.

Local Open Scope N_scope.

(** ** Python strings *)

(** A [str] is a list of code points. *)
Abbreviation str := (list N).

Abbreviation bytes := (list byte).

(** ASCII literals of the script, as code points. *)
Definition py (s : string) : str :=
  Ascii.N_of_ascii <$> String.list_ascii_of_string s.

Definition LF : N := 10.
Definition DOT : N := 46.

(** [s.split(sep)] for a one-character separator: never the empty list. *)
Fixpoint split (sep : N) (s : str) : list str :=
  match s with
  | [] => [[]]
  | c :: s' =>
      if c =? sep then [] :: split sep s'
      else match split sep s' with
           | [] => [[c]]
           | l :: ls => (c :: l) :: ls
           end
  end.

(** [sep.join(ls)]. *)
Fixpoint join (sep : str) (ls : list str) : str :=
  match ls with
  | [] => []
  | l :: ls' =>
      match ls' with
      | [] => l
      | _ :: _ => l ++ sep ++ join sep ls'
      end
  end.

(** The code points for which [str.isspace] holds; [str.strip()] removes
    exactly these from both ends. *)
Definition whitespace : list N :=
  [9; 10; 11; 12; 13; 28; 29; 30; 31; 32; 133; 160; 5760; 8192; 8193; 8194;
   8195; 8196; 8197; 8198; 8199; 8200; 8201; 8202; 8232; 8233; 8239; 8287;
   12288].

Definition is_space (c : N) : bool := existsb (N.eqb c) whitespace.

Fixpoint lstrip (s : str) : str :=
  match s with
  | [] => []
  | c :: s' => if is_space c then lstrip s' else s
  end.

Fixpoint rstrip (s : str) : str :=
  match s with
  | [] => []
  | c :: s' =>
      match rstrip s' with
      | [] => if is_space c then [] else [c]
      | r => c :: r
      end
  end.

(** [s.strip()]. *)
Definition strip (s : str) : str := rstrip (lstrip s).

(** [s.lower()], with the tables of the interpreter (Unicode 14).

    The simple lower-case mapping, in segments [(lo, hi, step, target)]:
    the code points [lo], [lo + step], ..., [hi] go to [target],
    [target + step], ...  Capital sigma is not in the table. *)
Definition lower_segments : list (N * N * N * N) :=
  [(65, 90, 1, 97); (192, 214, 1, 224); (216, 222, 1, 248);
   (256, 302, 2, 257); (306, 310, 2, 307); (313, 327, 2, 314);
   (330, 374, 2, 331); (376, 376, 1, 255); (377, 381, 2, 378);
   (385, 385, 1, 595); (386, 388, 2, 387); (390, 390, 1, 596);
   (391, 391, 1, 392); (393, 394, 1, 598); (395, 395, 1, 396);
   (398, 398, 1, 477); (399, 399, 1, 601); (400, 400, 1, 603);
   (401, 401, 1, 402); (403, 403, 1, 608); (404, 404, 1, 611);
   (406, 406, 1, 617); (407, 407, 1, 616); (408, 408, 1, 409);
   (412, 412, 1, 623); (413, 413, 1, 626); (415, 415, 1, 629);
   (416, 420, 2, 417); (422, 422, 1, 640); (423, 423, 1, 424);
   (425, 425, 1, 643); (428, 428, 1, 429); (430, 430, 1, 648);
   (431, 431, 1, 432); (433, 434, 1, 650); (435, 437, 2, 436);
   (439, 439, 1, 658); (440, 440, 1, 441); (444, 444, 1, 445);
   (452, 452, 1, 454); (453, 453, 1, 454); (455, 455, 1, 457);
   (456, 456, 1, 457); (458, 458, 1, 460); (459, 475, 2, 460);
   (478, 494, 2, 479); (497, 497, 1, 499); (498, 500, 2, 499);
   (502, 502, 1, 405); (503, 503, 1, 447); (504, 542, 2, 505);
   (544, 544, 1, 414); (546, 562, 2, 547); (570, 570, 1, 11365);
   (571, 571, 1, 572); (573, 573, 1, 410); (574, 574, 1, 11366);
   (577, 577, 1, 578); (579, 579, 1, 384); (580, 580, 1, 649);
   (581, 581, 1, 652); (582, 590, 2, 583); (880, 882, 2, 881);
   (886, 886, 1, 887); (895, 895, 1, 1011); (902, 902, 1, 940);
   (904, 906, 1, 941); (908, 908, 1, 972); (910, 911, 1, 973);
   (913, 929, 1, 945); (932, 939, 1, 964); (975, 975, 1, 983);
   (984, 1006, 2, 985); (1012, 1012, 1, 952); (1015, 1015, 1, 1016);
   (1017, 1017, 1, 1010); (1018, 1018, 1, 1019); (1021, 1023, 1, 891);
   (1024, 1039, 1, 1104); (1040, 1071, 1, 1072); (1120, 1152, 2, 1121);
   (1162, 1214, 2, 1163); (1216, 1216, 1, 1231); (1217, 1229, 2, 1218);
   (1232, 1326, 2, 1233); (1329, 1366, 1, 1377); (4256, 4293, 1, 11520);
   (4295, 4295, 1, 11559); (4301, 4301, 1, 11565); (5024, 5103, 1, 43888);
   (5104, 5109, 1, 5112); (7312, 7354, 1, 4304); (7357, 7359, 1, 4349);
   (7680, 7828, 2, 7681); (7838, 7838, 1, 223); (7840, 7934, 2, 7841);
   (7944, 7951, 1, 7936); (7960, 7965, 1, 7952); (7976, 7983, 1, 7968);
   (7992, 7999, 1, 7984); (8008, 8013, 1, 8000); (8025, 8031, 2, 8017);
   (8040, 8047, 1, 8032); (8072, 8079, 1, 8064); (8088, 8095, 1, 8080);
   (8104, 8111, 1, 8096); (8120, 8121, 1, 8112); (8122, 8123, 1, 8048);
   (8124, 8124, 1, 8115); (8136, 8139, 1, 8050); (8140, 8140, 1, 8131);
   (8152, 8153, 1, 8144); (8154, 8155, 1, 8054); (8168, 8169, 1, 8160);
   (8170, 8171, 1, 8058); (8172, 8172, 1, 8165); (8184, 8185, 1, 8056);
   (8186, 8187, 1, 8060); (8188, 8188, 1, 8179); (8486, 8486, 1, 969);
   (8490, 8490, 1, 107); (8491, 8491, 1, 229); (8498, 8498, 1, 8526);
   (8544, 8559, 1, 8560); (8579, 8579, 1, 8580); (9398, 9423, 1, 9424);
   (11264, 11311, 1, 11312); (11360, 11360, 1, 11361); (11362, 11362, 1, 619);
   (11363, 11363, 1, 7549); (11364, 11364, 1, 637); (11367, 11371, 2, 11368);
   (11373, 11373, 1, 593); (11374, 11374, 1, 625); (11375, 11375, 1, 592);
   (11376, 11376, 1, 594); (11378, 11378, 1, 11379); (11381, 11381, 1, 11382);
   (11390, 11391, 1, 575); (11392, 11490, 2, 11393); (11499, 11501, 2, 11500);
   (11506, 11506, 1, 11507); (42560, 42604, 2, 42561);
   (42624, 42650, 2, 42625); (42786, 42798, 2, 42787);
   (42802, 42862, 2, 42803); (42873, 42875, 2, 42874);
   (42877, 42877, 1, 7545); (42878, 42886, 2, 42879);
   (42891, 42891, 1, 42892); (42893, 42893, 1, 613); (42896, 42898, 2, 42897);
   (42902, 42920, 2, 42903); (42922, 42922, 1, 614); (42923, 42923, 1, 604);
   (42924, 42924, 1, 609); (42925, 42925, 1, 620); (42926, 42926, 1, 618);
   (42928, 42928, 1, 670); (42929, 42929, 1, 647); (42930, 42930, 1, 669);
   (42931, 42931, 1, 43859); (42932, 42946, 2, 42933);
   (42948, 42948, 1, 42900); (42949, 42949, 1, 642); (42950, 42950, 1, 7566);
   (42951, 42953, 2, 42952); (42960, 42960, 1, 42961);
   (42966, 42968, 2, 42967); (42997, 42997, 1, 42998);
   (65313, 65338, 1, 65345); (66560, 66599, 1, 66600);
   (66736, 66771, 1, 66776); (66928, 66938, 1, 66967);
   (66940, 66954, 1, 66979); (66956, 66962, 1, 66995);
   (66964, 66965, 1, 67003); (68736, 68786, 1, 68800);
   (71840, 71871, 1, 71872); (93760, 93791, 1, 93792);
   (125184, 125217, 1, 125218)].

Definition in_segment (c : N) (seg : N * N * N * N) : bool :=
  let '(lo, hi, step, _) := seg in
  (lo <=? c) && (c <=? hi) && ((c - lo) mod step =? 0).

Definition to_lower (c : N) : N :=
  match find (in_segment c) lower_segments with
  | Some (lo, _, _, target) => target + (c - lo)
  | None => c
  end.

(** The full mapping: U+0130 alone goes to two code points. *)
Definition to_lower_full (c : N) : str :=
  if c =? 304 then [105; 775] else [to_lower c].

(** The case-ignorable code points and the cased ones, as ranges. *)
Definition case_ignorable_ranges : list (N * N) :=
  [(39, 39); (46, 46); (58, 58); (94, 94); (96, 96); (168, 168); (173, 173);
   (175, 175); (180, 180); (183, 184); (688, 879); (884, 885); (890, 890);
   (900, 901); (903, 903); (1155, 1161); (1369, 1369); (1375, 1375);
   (1425, 1469); (1471, 1471); (1473, 1474); (1476, 1477); (1479, 1479);
   (1524, 1524); (1536, 1541); (1552, 1562); (1564, 1564); (1600, 1600);
   (1611, 1631); (1648, 1648); (1750, 1757); (1759, 1768); (1770, 1773);
   (1807, 1807); (1809, 1809); (1840, 1866); (1958, 1968); (2027, 2037);
   (2042, 2042); (2045, 2045); (2070, 2093); (2137, 2139); (2184, 2184);
   (2192, 2193); (2200, 2207); (2249, 2306); (2362, 2362); (2364, 2364);
   (2369, 2376); (2381, 2381); (2385, 2391); (2402, 2403); (2417, 2417);
   (2433, 2433); (2492, 2492); (2497, 2500); (2509, 2509); (2530, 2531);
   (2558, 2558); (2561, 2562); (2620, 2620); (2625, 2626); (2631, 2632);
   (2635, 2637); (2641, 2641); (2672, 2673); (2677, 2677); (2689, 2690);
   (2748, 2748); (2753, 2757); (2759, 2760); (2765, 2765); (2786, 2787);
   (2810, 2815); (2817, 2817); (2876, 2876); (2879, 2879); (2881, 2884);
   (2893, 2893); (2901, 2902); (2914, 2915); (2946, 2946); (3008, 3008);
   (3021, 3021); (3072, 3072); (3076, 3076); (3132, 3132); (3134, 3136);
   (3142, 3144); (3146, 3149); (3157, 3158); (3170, 3171); (3201, 3201);
   (3260, 3260); (3263, 3263); (3270, 3270); (3276, 3277); (3298, 3299);
   (3328, 3329); (3387, 3388); (3393, 3396); (3405, 3405); (3426, 3427);
   (3457, 3457); (3530, 3530); (3538, 3540); (3542, 3542); (3633, 3633);
   (3636, 3642); (3654, 3662); (3761, 3761); (3764, 3772); (3782, 3782);
   (3784, 3789); (3864, 3865); (3893, 3893); (3895, 3895); (3897, 3897);
   (3953, 3966); (3968, 3972); (3974, 3975); (3981, 3991); (3993, 4028);
   (4038, 4038); (4141, 4144); (4146, 4151); (4153, 4154); (4157, 4158);
   (4184, 4185); (4190, 4192); (4209, 4212); (4226, 4226); (4229, 4230);
   (4237, 4237); (4253, 4253); (4348, 4348); (4957, 4959); (5906, 5908);
   (5938, 5939); (5970, 5971); (6002, 6003); (6068, 6069); (6071, 6077);
   (6086, 6086); (6089, 6099); (6103, 6103); (6109, 6109); (6155, 6159);
   (6211, 6211); (6277, 6278); (6313, 6313); (6432, 6434); (6439, 6440);
   (6450, 6450); (6457, 6459); (6679, 6680); (6683, 6683); (6742, 6742);
   (6744, 6750); (6752, 6752); (6754, 6754); (6757, 6764); (6771, 6780);
   (6783, 6783); (6823, 6823); (6832, 6862); (6912, 6915); (6964, 6964);
   (6966, 6970); (6972, 6972); (6978, 6978); (7019, 7027); (7040, 7041);
   (7074, 7077); (7080, 7081); (7083, 7085); (7142, 7142); (7144, 7145);
   (7149, 7149); (7151, 7153); (7212, 7219); (7222, 7223); (7288, 7293);
   (7376, 7378); (7380, 7392); (7394, 7400); (7405, 7405); (7412, 7412);
   (7416, 7417); (7468, 7530); (7544, 7544); (7579, 7679); (8125, 8125);
   (8127, 8129); (8141, 8143); (8157, 8159); (8173, 8175); (8189, 8190);
   (8203, 8207); (8216, 8217); (8228, 8228); (8231, 8231); (8234, 8238);
   (8288, 8292); (8294, 8303); (8305, 8305); (8319, 8319); (8336, 8348);
   (8400, 8432); (11388, 11389); (11503, 11505); (11631, 11631);
   (11647, 11647); (11744, 11775); (11823, 11823); (12293, 12293);
   (12330, 12333); (12337, 12341); (12347, 12347); (12441, 12446);
   (12540, 12542); (40981, 40981); (42232, 42237); (42508, 42508);
   (42607, 42610); (42612, 42621); (42623, 42623); (42652, 42655);
   (42736, 42737); (42752, 42785); (42864, 42864); (42888, 42890);
   (42994, 42996); (43000, 43001); (43010, 43010); (43014, 43014);
   (43019, 43019); (43045, 43046); (43052, 43052); (43204, 43205);
   (43232, 43249); (43263, 43263); (43302, 43309); (43335, 43345);
   (43392, 43394); (43443, 43443); (43446, 43449); (43452, 43453);
   (43471, 43471); (43493, 43494); (43561, 43566); (43569, 43570);
   (43573, 43574); (43587, 43587); (43596, 43596); (43632, 43632);
   (43644, 43644); (43696, 43696); (43698, 43700); (43703, 43704);
   (43710, 43711); (43713, 43713); (43741, 43741); (43756, 43757);
   (43763, 43764); (43766, 43766); (43867, 43871); (43881, 43883);
   (44005, 44005); (44008, 44008); (44013, 44013); (64286, 64286);
   (64434, 64450); (65024, 65039); (65043, 65043); (65056, 65071);
   (65106, 65106); (65109, 65109); (65279, 65279); (65287, 65287);
   (65294, 65294); (65306, 65306); (65342, 65342); (65344, 65344);
   (65392, 65392); (65438, 65439); (65507, 65507); (65529, 65531);
   (66045, 66045); (66272, 66272); (66422, 66426); (67456, 67461);
   (67463, 67504); (67506, 67514); (68097, 68099); (68101, 68102);
   (68108, 68111); (68152, 68154); (68159, 68159); (68325, 68326);
   (68900, 68903); (69291, 69292); (69446, 69456); (69506, 69509);
   (69633, 69633); (69688, 69702); (69744, 69744); (69747, 69748);
   (69759, 69761); (69811, 69814); (69817, 69818); (69821, 69821);
   (69826, 69826); (69837, 69837); (69888, 69890); (69927, 69931);
   (69933, 69940); (70003, 70003); (70016, 70017); (70070, 70078);
   (70089, 70092); (70095, 70095); (70191, 70193); (70196, 70196);
   (70198, 70199); (70206, 70206); (70367, 70367); (70371, 70378);
   (70400, 70401); (70459, 70460); (70464, 70464); (70502, 70508);
   (70512, 70516); (70712, 70719); (70722, 70724); (70726, 70726);
   (70750, 70750); (70835, 70840); (70842, 70842); (70847, 70848);
   (70850, 70851); (71090, 71093); (71100, 71101); (71103, 71104);
   (71132, 71133); (71219, 71226); (71229, 71229); (71231, 71232);
   (71339, 71339); (71341, 71341); (71344, 71349); (71351, 71351);
   (71453, 71455); (71458, 71461); (71463, 71467); (71727, 71735);
   (71737, 71738); (71995, 71996); (71998, 71998); (72003, 72003);
   (72148, 72151); (72154, 72155); (72160, 72160); (72193, 72202);
   (72243, 72248); (72251, 72254); (72263, 72263); (72273, 72278);
   (72281, 72283); (72330, 72342); (72344, 72345); (72752, 72758);
   (72760, 72765); (72767, 72767); (72850, 72871); (72874, 72880);
   (72882, 72883); (72885, 72886); (73009, 73014); (73018, 73018);
   (73020, 73021); (73023, 73029); (73031, 73031); (73104, 73105);
   (73109, 73109); (73111, 73111); (73459, 73460); (78896, 78904);
   (92912, 92916); (92976, 92982); (92992, 92995); (94031, 94031);
   (94095, 94111); (94176, 94177); (94179, 94180); (110576, 110579);
   (110581, 110587); (110589, 110590); (113821, 113822); (113824, 113827);
   (118528, 118573); (118576, 118598); (119143, 119145); (119155, 119170);
   (119173, 119179); (119210, 119213); (119362, 119364); (121344, 121398);
   (121403, 121452); (121461, 121461); (121476, 121476); (121499, 121503);
   (121505, 121519); (122880, 122886); (122888, 122904); (122907, 122913);
   (122915, 122916); (122918, 122922); (123184, 123197); (123566, 123566);
   (123628, 123631); (125136, 125142); (125252, 125259); (127995, 127999);
   (917505, 917505); (917536, 917631); (917760, 917999)].

Definition cased_ranges : list (N * N) :=
  [(65, 90); (97, 122); (170, 170); (181, 181); (186, 186); (192, 214);
   (216, 246); (248, 442); (444, 447); (452, 659); (661, 696); (704, 705);
   (736, 740); (837, 837); (880, 883); (886, 887); (890, 893); (895, 895);
   (902, 902); (904, 906); (908, 908); (910, 929); (931, 1013); (1015, 1153);
   (1162, 1327); (1329, 1366); (1376, 1416); (4256, 4293); (4295, 4295);
   (4301, 4301); (4304, 4346); (4349, 4351); (5024, 5109); (5112, 5117);
   (7296, 7304); (7312, 7354); (7357, 7359); (7424, 7615); (7680, 7957);
   (7960, 7965); (7968, 8005); (8008, 8013); (8016, 8023); (8025, 8025);
   (8027, 8027); (8029, 8029); (8031, 8061); (8064, 8116); (8118, 8124);
   (8126, 8126); (8130, 8132); (8134, 8140); (8144, 8147); (8150, 8155);
   (8160, 8172); (8178, 8180); (8182, 8188); (8305, 8305); (8319, 8319);
   (8336, 8348); (8450, 8450); (8455, 8455); (8458, 8467); (8469, 8469);
   (8473, 8477); (8484, 8484); (8486, 8486); (8488, 8488); (8490, 8493);
   (8495, 8500); (8505, 8505); (8508, 8511); (8517, 8521); (8526, 8526);
   (8544, 8575); (8579, 8580); (9398, 9449); (11264, 11492); (11499, 11502);
   (11506, 11507); (11520, 11557); (11559, 11559); (11565, 11565);
   (42560, 42605); (42624, 42653); (42786, 42887); (42891, 42894);
   (42896, 42954); (42960, 42961); (42963, 42963); (42965, 42969);
   (42997, 42998); (43000, 43002); (43824, 43866); (43868, 43880);
   (43888, 43967); (64256, 64262); (64275, 64279); (65313, 65338);
   (65345, 65370); (66560, 66639); (66736, 66771); (66776, 66811);
   (66928, 66938); (66940, 66954); (66956, 66962); (66964, 66965);
   (66967, 66977); (66979, 66993); (66995, 67001); (67003, 67004);
   (67456, 67456); (67459, 67461); (67463, 67504); (67506, 67514);
   (68736, 68786); (68800, 68850); (71840, 71903); (93760, 93823);
   (119808, 119892); (119894, 119964); (119966, 119967); (119970, 119970);
   (119973, 119974); (119977, 119980); (119982, 119993); (119995, 119995);
   (119997, 120003); (120005, 120069); (120071, 120074); (120077, 120084);
   (120086, 120092); (120094, 120121); (120123, 120126); (120128, 120132);
   (120134, 120134); (120138, 120144); (120146, 120485); (120488, 120512);
   (120514, 120538); (120540, 120570); (120572, 120596); (120598, 120628);
   (120630, 120654); (120656, 120686); (120688, 120712); (120714, 120744);
   (120746, 120770); (120772, 120779); (122624, 122633); (122635, 122654);
   (125184, 125251); (127280, 127305); (127312, 127337); (127344, 127369)].

Definition in_ranges (c : N) (rs : list (N * N)) : bool :=
  existsb (λ r, (fst r <=? c) && (c <=? snd r)) rs.

Definition case_ignorable (c : N) : bool := in_ranges c case_ignorable_ranges.
Definition cased (c : N) : bool := in_ranges c cased_ranges.

(** The first code point that is not case-ignorable. *)
Fixpoint skip_ignorable (s : str) : option N :=
  match s with
  | [] => None
  | c :: s' => if case_ignorable c then skip_ignorable s' else Some c
  end.

(** A capital sigma is final when a cased letter stands before it and
    none after it, case-ignorable code points in between not counting;
    [before] is what precedes the sigma, nearest first. *)
Definition final_sigma (before after : str) : bool :=
  match skip_ignorable before with
  | Some b =>
      cased b
      && match skip_ignorable after with
         | Some a => negb (cased a)
         | None => true
         end
  | None => false
  end.

Definition SIGMA : N := 931.

(** What [lower] writes for the code point [c] between [before] and
    [after]. *)
Definition lower_at (before : str) (c : N) (after : str) : str :=
  if c =? SIGMA
  then [if final_sigma before after then 962 else 963]
  else to_lower_full c.

Fixpoint lower_from (before s : str) : str :=
  match s with
  | [] => []
  | c :: s' => lower_at before c s' ++ lower_from (c :: before) s'
  end.

Definition lower (s : str) : str := lower_from [] s.

(** ** Filename Sequencer (lines 46-50) *)

(** The pattern [\d] on a [str] matches the Unicode decimal digits.  They
    come in runs of ten consecutive code points, zero first; these are the
    zeros. *)
Definition decimal_zeros : list N :=
  [48; 1632; 1776; 1984; 2406; 2534; 2662; 2790; 2918; 3046; 3174; 3302;
   3430; 3558; 3664; 3792; 3872; 4160; 4240; 6112; 6160; 6470; 6608; 6784;
   6800; 6992; 7088; 7232; 7248; 42528; 43216; 43264; 43472; 43504; 43600;
   44016; 65296; 66720; 68912; 69734; 69872; 69942; 70096; 70384; 70736;
   70864; 71248; 71360; 71472; 71904; 72016; 72784; 73040; 73120; 92768;
   92864; 93008; 120782; 120792; 120802; 120812; 120822; 123200; 123632;
   125264; 130032].

(** The digit value of a code point, when it is a decimal digit. *)
Definition decimal (c : N) : option N :=
  (λ z, c - z) <$> find (λ z, (z <=? c) && (c <? z + 10)) decimal_zeros.

Definition is_digit (c : N) : bool := bool_decide (is_Some (decimal c)).

Fixpoint skip_to_digit (s : str) : str :=
  match s with
  | [] => []
  | c :: s' => if is_digit c then s else skip_to_digit s'
  end.

Fixpoint digit_run (s : str) : str :=
  match s with
  | [] => []
  | c :: s' => if is_digit c then c :: digit_run s' else []
  end.

(** [re.search(r'(\d+)', s)]: the leftmost match, as long as it can be;
    the result is [group(1)]. *)
Definition re_search_digits (s : str) : option str :=
  match skip_to_digit s with
  | [] => None
  | r => Some (digit_run r)
  end.

(** [int(ds)] for a string of decimal digits.  (The interpreter refuses
    runs of more than 4300 digits; file names are far shorter.) *)
Definition int (ds : str) : N :=
  foldl (λ acc c, 10 * acc + default 0 (decimal c)) 0 ds.

(** What [extract_number] returns: an [int], or [float('inf')]. *)
Inductive sort_key : Type :=
  | KInt (n : N)
  | KInf.

(** Python's [<] on these values: every [int] is below infinity. *)
Definition key_lt (a b : sort_key) : bool :=
  match a, b with
  | KInt m, KInt n => m <? n
  | KInt _, KInf => true
  | KInf, _ => false
  end.

#[global] Instance sort_key_eq_dec : EqDecision sort_key.
Proof. solve_decision. Defined.

Definition key_le (a b : sort_key) : Prop := key_lt b a = false.

Record UploadedFile : Type := {
  name : str;
  content : bytes;
}.

Definition extract_number (file : UploadedFile) : sort_key :=
  match re_search_digits (name file) with
  | Some g => KInt (int g)
  | None => KInf
  end.

(** [sorted(l, key=key)]: a stable sort that compares keys with [<] only.
    An element goes behind everything that is strictly smaller than it
    and in front of the rest. *)
Fixpoint insert_by {A} (key : A → sort_key) (x : A) (l : list A) : list A :=
  match l with
  | [] => [x]
  | y :: l' =>
      if key_lt (key y) (key x) then y :: insert_by key x l'
      else x :: y :: l'
  end.

Definition sorted {A} (key : A → sort_key) (l : list A) : list A :=
  foldr (insert_by key) [] l.

(** ** Normalisation (lines 156-163) *)

(** The loop that copies [lines] into [cleaned_lines], one append per
    line, with its two branches. *)
Definition cleaned_lines (lines : list str) : list str :=
  foldl (λ acc line, if decide (line = []) then acc ++ [[]] else acc ++ [line])
        [] lines.

Definition normalize (full_text : str) : str :=
  let lines := strip <$> split LF full_text in
  join [LF] (cleaned_lines lines).

(** ** The collaborators and the script's state *)

(** How a call ends: with a value, or with an exception [e], of which the
    script only uses [str(e)]. *)
Inductive outcome (A : Type) : Type :=
  | Ok (a : A)
  | Raise (msg : str).

Arguments Ok {A} a.
Arguments Raise {A} msg.

(** A decoded image, and the handle [genai.upload_file] returns. *)
Record image : Type := { image_data : bytes }.
Record file_handle : Type := { handle_uri : str }.

(** A response of the model; reading [response.text] gives [None], a
    string, or raises. *)
Record response : Type := { response_text : outcome (option str) }.

Inductive part : Type :=
  | PText (s : str)
  | PImage (i : image)
  | PFile (h : file_handle).

(** The remote calls the script makes. *)
Inductive remote_call : Type :=
  | CallUpload (data : option bytes) (display_name : str)
  | CallGenerate (parts : list part).

(** The answers of the collaborators.  A remote call is answered as a
    function of the number of remote calls made before it, so that the
    same request may succeed once and fail the next time. *)
Record World : Type := {
  image_open : bytes → outcome image;
  upload_file : nat → option bytes → str → outcome file_handle;
  generate_content : nat → list part → outcome response;
  duplicate_key_message : str → str;
}.

(** An entry of [extracted_data]. *)
Record item : Type := { filename : str; text : str }.

Record State : Type := {
  extracted_data : list item;
  tmp_files : gmap positive bytes;
  remote_calls : list remote_call;
  widget_keys : gset str;
}.

Definition set_extracted_data (d : list item) (s : State) : State :=
  {| extracted_data := d; tmp_files := tmp_files s;
     remote_calls := remote_calls s; widget_keys := widget_keys s |}.

Definition set_tmp_files (t : gmap positive bytes) (s : State) : State :=
  {| extracted_data := extracted_data s; tmp_files := t;
     remote_calls := remote_calls s; widget_keys := widget_keys s |}.

Definition set_remote_calls (c : list remote_call) (s : State) : State :=
  {| extracted_data := extracted_data s; tmp_files := tmp_files s;
     remote_calls := c; widget_keys := widget_keys s |}.

Definition set_widget_keys (k : gset str) (s : State) : State :=
  {| extracted_data := extracted_data s; tmp_files := tmp_files s;
     remote_calls := remote_calls s; widget_keys := k |}.

(** Statements of the script: they read and change the state and end with
    a value or an exception.  What was changed before an exception stays
    changed. *)
Definition M (A : Type) : Type := State → outcome A * State.

#[global] Instance M_ret : MRet M := λ A a s, (Ok a, s).

#[global] Instance M_bind : MBind M := λ A B k m s,
  match m s with
  | (Ok a, s') => k a s'
  | (Raise e, s') => (Raise e, s')
  end.

Definition lift {A} (o : outcome A) : M A := λ s, (o, s).

(** [try: body  except Exception as e: handler(str(e))]. *)
Definition try_except {A} (body : M A) (handler : str → M A) : M A := λ s,
  match body s with
  | (Ok a, s') => (Ok a, s')
  | (Raise e, s') => handler e s'
  end.

(** [try: body  finally: cleanup]: the cleanup runs on both exits; an
    exception of the cleanup replaces the result of the body. *)
Definition try_finally {A} (body : M A) (cleanup : M unit) : M A := λ s,
  match body s with
  | (r, s') =>
      match cleanup s' with
      | (Ok _, s'') => (r, s'')
      | (Raise e, s'') => (Raise e, s'')
      end
  end.

(** [extracted_data.append(it)]. *)
Definition append (it : item) : M unit := λ s,
  (Ok (), set_extracted_data (extracted_data s ++ [it]) s).

(** [tempfile.NamedTemporaryFile(delete=False)], [tmp.write(data)] and the
    end of the [with] block: a file under a name not in use, holding
    [data], closed and left in place.  The local file system is taken to
    work: creating, writing and unlinking do not raise. *)
Definition named_temporary_file (data : bytes) : M positive := λ s,
  let tmp_path := fresh (dom (tmp_files s)) in
  (Ok tmp_path, set_tmp_files (<[tmp_path := data]> (tmp_files s)) s).

(** [os.path.exists(p)] and [os.unlink(p)]. *)
Definition path_exists (p : positive) : M bool := λ s,
  (Ok (bool_decide (is_Some (tmp_files s !! p))), s).

Definition unlink (p : positive) : M unit := λ s,
  (Ok (), set_tmp_files (delete p (tmp_files s)) s).

(** [Image.open(io.BytesIO(data))]. *)
Definition open_image (w : World) (data : bytes) : M image :=
  lift (image_open w data).

(** [genai.upload_file(path=p, display_name=n, mime_type=...)]. *)
Definition genai_upload_file (w : World) (p : positive) (n : str)
  : M file_handle := λ s,
  let data : option bytes := tmp_files s !! p in
  (upload_file w (length (remote_calls s)) data n,
   set_remote_calls (remote_calls s ++ [CallUpload data n]) s).

(** [model.generate_content(parts)]. *)
Definition model_generate_content (w : World) (parts : list part)
  : M response := λ s,
  (generate_content w (length (remote_calls s)) parts,
   set_remote_calls (remote_calls s ++ [CallGenerate parts]) s).

(** [st.text_area(..., key=key)]: within one run of the script the widget
    layer accepts a key once; asking for it again raises (Streamlit's
    duplicate key error, an [Exception]).  The other calls into the widget
    layer ([st.spinner], [st.markdown], [st.error], ...) only draw and are
    left out. *)
Definition text_area (w : World) (key : str) : M unit := λ s,
  if decide (key ∈ widget_keys s)
  then (Raise (duplicate_key_message w key), s)
  else (Ok (), set_widget_keys ({[key]} ∪ widget_keys s) s).

(** ** Transcription Adapter (lines 76-153) *)

Definition prompt_image : str := py "
                        You are an OCR tool. Your job is to transcribe ALL visible text from the image **EXACTLY as it appears**, without any changes.

                        Rules:
                        1. Do NOT summarize, interpret, or explain.
                        2. Do NOT fix grammar or spelling.
                        3. Preserve ALL original formatting:
                           - Line breaks
                           - Punctuation
                           - Spacing
                           - Bilingual text (Nepali + English together)
                           - Numbers, symbols, brackets
                        4. If text is cut off, write [text unclear] at that point.
                        5. Maintain the same visual order (top to bottom, left to right).
                        6. Do NOT add your own headings or labels.

                        Output only the raw, unmodified text exactly as seen.
                        ".

Definition prompt_pdf : str := py "
                            You are an OCR tool. Your job is to transcribe ALL visible text from the PDF **EXACTLY as it appears**, without any changes.

                            Rules:
                            1. Do NOT summarize, interpret, or explain.
                            2. Do NOT fix grammar or spelling.
                            3. Preserve ALL original formatting:
                               - Line breaks
                               - Punctuation
                               - Spacing
                               - Bilingual text (Nepali + English together)
                               - Numbers, symbols, brackets
                            4. If text is cut off, write [text unclear] at that point.
                            5. Maintain the same visual order (top to bottom, left to right).
                            6. Do NOT add your own headings or labels.

                            Output only the raw, unmodified text exactly as seen.
                            ".

Definition no_text_detected : str := py "[No text detected or low confidence]".
Definition unsupported_file_type : str := py "[Unsupported file type]".
Definition gemini_error (e : str) : str := py "[Gemini error: " ++ e ++ py "]".
Definition unexpected_error (e : str) : str :=
  py "[Unexpected error: " ++ e ++ py "]".

(** [response.text.strip() if response.text else "[No text detected or low
    confidence]"]: [None] and the empty string are the false values. *)
Definition text_of_response (r : response) : M str :=
  t ← lift (response_text r);
  match t with
  | Some (c :: t') => mret (strip (c :: t'))
  | Some [] | None => mret no_text_detected
  end.

(** [file.name.lower().split('.')[-1]]. *)
Definition file_ext (file : UploadedFile) : str :=
  default [] (last (split DOT (lower (name file)))).

Definition transcribe_image (w : World) (file : UploadedFile) : M str :=
  let image_bytes := content file in
  image ← open_image w image_bytes;
  response ← model_generate_content w [PText prompt_image; PImage image];
  text_of_response response.

(** The body of the inner [try] (lines 117-143). *)
Definition pdf_call (w : World) (file : UploadedFile) (tmp_path : positive)
  : M str :=
  uploaded_file_obj ← genai_upload_file w tmp_path (name file);
  response ← model_generate_content w
               [PText prompt_pdf; PFile uploaded_file_obj];
  text_of_response response.

(** The [finally] block (lines 149-150). *)
Definition cleanup (tmp_path : positive) : M unit :=
  present ← path_exists tmp_path;
  if present : bool then unlink tmp_path else mret ().

Definition transcribe_pdf (w : World) (file : UploadedFile) : M str :=
  let pdf_bytes := content file in
  tmp_path ← named_temporary_file pdf_bytes;
  try_finally
    (try_except (pdf_call w file tmp_path) (λ e, mret (gemini_error e)))
    (cleanup tmp_path).

Definition image_exts : list str := [py "jpg"; py "jpeg"; py "png"].

(** The raw text of a file: [full_text] as it stands at line 154. *)
Definition transcribe (w : World) (file : UploadedFile) : M str :=
  let ext := file_ext file in
  if decide (ext ∈ image_exts) then transcribe_image w file
  else if decide (ext = py "pdf") then transcribe_pdf w file
  else mret unsupported_file_type.

(** ** Batch Orchestrator (lines 71-179) *)

(** Lines 156-173: normalise, store, show. *)
Definition store_and_show (w : World) (file : UploadedFile) (full_text : str)
  : M unit :=
  let final_text := normalize full_text in
  append {| filename := name file; text := final_text |};;
  text_area w (py "text_" ++ name file).

(** The body of the loop: the outer [try] and its handler. *)
Definition process_file (w : World) (file : UploadedFile) : M unit :=
  try_except
    (full_text ← transcribe w file;
     store_and_show w file full_text)
    (λ e,
       let error_msg := unexpected_error e in
       append {| filename := name file; text := error_msg |}).

Fixpoint for_each {A} (l : list A) (body : A → M unit) : M unit :=
  match l with
  | [] => mret ()
  | x :: l' => body x;; for_each l' body
  end.

(** [extracted_data.clear()]. *)
Definition clear : M unit := λ s, (Ok (), set_extracted_data [] s).

(** Lines 50 and 71-179: order the uploads, empty the result list and
    process the files in that order. *)
Definition run_batch (w : World) (uploaded_files : list UploadedFile)
  : M unit :=
  let sorted_files := sorted extract_number uploaded_files in
  clear;;
  for_each sorted_files (process_file w).

(** The state in which the button handler starts: no results, no remote
    call made, no keyed widget created yet in this run of the script. *)
Definition initial (tmp : gmap positive bytes) : State :=
  {| extracted_data := []; tmp_files := tmp; remote_calls := [];
     widget_keys := ∅ |}.

(** ** Document Assembler (lines 184-205) *)

(** What a run holds: text, tab elements and line breaks. *)
Inductive inline : Type :=
  | IText (s : str)
  | ITab
  | IBreak.

Record run : Type := {
  run_content : list inline;
  bold : bool;
  font_size : option N;
  font_name : option str;
}.

Inductive block : Type :=
  | Heading (runs : list run) (level : N)
  | Paragraph (runs : list run).

(** The code points the document library takes in a text element: no
    control character below U+0020 but tab, line feed and carriage
    return, no surrogate, neither U+FFFE nor U+FFFF. *)
Definition xml_compatible (c : N) : bool :=
  (c =? 9) || (c =? 10) || (c =? 13)
  || ((32 <=? c) && (c <? 55296))
  || ((57344 <=? c) && (c <? 65534))
  || (65536 <=? c).

(** The buffered characters become one text element, if there are any;
    [None] is the [ValueError] the library raises for a code point it
    does not take. *)
Definition flush (bfr : str) : option (list inline) :=
  match bfr with
  | [] => Some []
  | _ :: _ => if forallb xml_compatible bfr then Some [IText bfr] else None
  end.

(** [run.text = text]: the characters go into a buffer; a tab writes the
    buffer and a tab element, a carriage return or a line feed writes the
    buffer and a line break, the end writes the buffer. *)
Fixpoint append_to_run (bfr text : str) : option (list inline) :=
  match text with
  | [] => flush bfr
  | c :: text' =>
      if c =? 9 then
        before ← flush bfr;
        after ← append_to_run [] text';
        Some (before ++ ITab :: after)
      else if (c =? 13) || (c =? 10) then
        before ← flush bfr;
        after ← append_to_run [] text';
        Some (before ++ IBreak :: after)
      else append_to_run (bfr ++ [c]) text'
  end.

(** The content of the run [add_run(text)] makes. *)
Definition add_run (text : str) : option (list inline) :=
  append_to_run [] text.

Definition plain (content : list inline) : run :=
  {| run_content := content; bold := false; font_size := None;
     font_name := None |}.

(** [doc.add_heading(text, level)] and [doc.add_paragraph(text)]. *)
Definition add_heading (text : str) (level : N) : option block :=
  content ← add_run text;
  Some (Heading [plain content] level).

Definition add_paragraph (text : str) : option block :=
  content ← add_run text;
  Some (Paragraph [plain content]).

(** Lines 190-193. *)
Definition source_header (it : item) : option block :=
  content ← add_run (py "Source: " ++ filename it);
  Some (Paragraph [{| run_content := content; bold := true;
                      font_size := Some 12; font_name := None |}]).

(** Lines 198-202. *)
Definition line_paragraph (line : str) : option block :=
  content ← add_run line;
  Some (Paragraph [{| run_content := content; bold := false;
                      font_size := Some 11;
                      font_name := Some (py "Nirmala UI") |}]).

(** The document is built by appending, block after block; an exception
    ends the building and the run of the script. *)
Fixpoint add_lines (doc : list block) (lines : list str)
  : option (list block) :=
  match lines with
  | [] => Some doc
  | line :: lines' =>
      para ← line_paragraph line;
      add_lines (doc ++ [para]) lines'
  end.

(** ["_" * 60]. *)
Definition rule : str := replicate 60 95.

Definition add_item (doc : list block) (it : item) : option (list block) :=
  header ← source_header it;
  doc ← add_lines (doc ++ [header]) (split LF (text it));
  sep ← add_paragraph rule;
  Some (doc ++ [sep]).

Fixpoint add_items (doc : list block) (data : list item)
  : option (list block) :=
  match data with
  | [] => Some doc
  | it :: data' =>
      doc ← add_item doc it;
      add_items doc data'
  end.

Definition assemble (data : list item) : option (list block) :=
  title ← add_heading (py "Exact Text Extraction from Images & PDFs") 0;
  intro ← add_paragraph (py "Files processed in order shown above.");
  add_items [title; intro] data.

(** The three blocks that are the same in every document. *)
Definition title_heading : block :=
  Heading [plain [IText (py "Exact Text Extraction from Images & PDFs")]] 0.

Definition intro_paragraph : block :=
  Paragraph [plain [IText (py "Files processed in order shown above.")]].

Definition separator : block := Paragraph [plain [IText rule]].

(** The blocks of one entry. *)
Definition item_blocks (it : item) : option (list block) :=
  header ← source_header it;
  paras ← mapM line_paragraph (split LF (text it));
  Some (header :: paras ++ [separator]).

Definition block_runs (b : block) : list run :=
  match b with
  | Heading rs _ => rs
  | Paragraph rs => rs
  end.

(** The text a run and a block read, as the library gives it back: a tab
    element is a tab, a line break a line feed. *)
Definition inline_text (i : inline) : str :=
  match i with
  | IText s => s
  | ITab => [9]
  | IBreak => [LF]
  end.

Definition run_text (r : run) : str := concat (inline_text <$> run_content r).

Definition block_text (b : block) : str :=
  concat (run_text <$> block_runs b).

(** A string with its carriage returns read as line feeds. *)
Definition breaks_as_lf (s : str) : str :=
  (λ c, if c =? 13 then LF else c) <$> s.

(** An entry whose file name and text the library takes. *)
Definition xml_clean (it : item) : Prop :=
  Forall (λ c, xml_compatible c = true) (filename it)
  ∧ Forall (λ c, xml_compatible c = true) (text it).



(** ** What a statement leaves alone *)

Definition keeps_results {A} (m : M A) : Prop :=
  ∀ s, extracted_data (snd (m s)) = extracted_data s
       ∧ widget_keys (snd (m s)) = widget_keys s.

Definition keeps_tmp_files {A} (m : M A) : Prop :=
  ∀ s, tmp_files (snd (m s)) = tmp_files s.

(** ** Sample uploads and collaborators, for the examples *)

Definition upload (n : string) : UploadedFile :=
  {| name := py n; content := [] |}.

(** Every call succeeds and the model answers [t]. *)
Definition answering (t : outcome (option str)) : World :=
  {| image_open := λ d, Ok {| image_data := d |};
     upload_file := λ _ _ _, Ok {| handle_uri := py "files/1" |};
     generate_content := λ _ _, Ok {| response_text := t |};
     duplicate_key_message := λ key, py "duplicate widget key " ++ key |}.

(** [generate_content] raises [e]. *)
Definition failing_generate (e : str) : World :=
  {| image_open := λ d, Ok {| image_data := d |};
     upload_file := λ _ _ _, Ok {| handle_uri := py "files/1" |};
     generate_content := λ _ _, Raise e;
     duplicate_key_message := λ key, py "duplicate widget key " ++ key |}.

(** An image is answered with [Bpage], an uploaded file with [Apage]. *)
Definition by_kind : World :=
  {| image_open := λ d, Ok {| image_data := d |};
     upload_file := λ _ _ _, Ok {| handle_uri := py "files/1" |};
     generate_content := λ _ parts,
       match parts with
       | [_; PImage _] => Ok {| response_text := Ok (Some (py "Bpage")) |}
       | _ => Ok {| response_text := Ok (Some (py "Apage")) |}
       end;
     duplicate_key_message := λ key, py "duplicate widget key " ++ key |}.

(** [genai.upload_file] raises [e]. *)
Definition failing_upload (e : str) : World :=
  {| image_open := λ d, Ok {| image_data := d |};
     upload_file := λ _ _ _, Raise e;
     generate_content := λ _ _, Ok {| response_text := Ok (Some (py "text")) |};
     duplicate_key_message := λ key, py "duplicate widget key " ++ key |}.

(** ** The script from top to bottom (lines 19-23, 42-68 and 181-218) *)

(** [if not API_KEY]: [None] and the empty string are the false values. *)
Definition has_api_key (API_KEY : option str) : bool :=
  match API_KEY with
  | Some (_ :: _) => true
  | Some [] | None => false
  end.

(** [str(n)], as an f-string writes an [int] that is not negative: its
    decimal digits, most significant first, without leading zeros. *)
Fixpoint str_of_int_fuel (fuel : nat) (n : N) : str :=
  match fuel with
  | O => []
  | S fuel' =>
      if n <? 10 then [48 + n]
      else str_of_int_fuel fuel' (n / 10) ++ [48 + n mod 10]
  end.

Definition str_of_int (n : N) : str :=
  str_of_int_fuel (S (N.to_nat (N.size n))) n.

(** The label of a file in the list of lines 53-56: [Q] and the digits as
    they stand in the name, or [Unknown]. *)
Definition order_label (f : UploadedFile) : str :=
  match re_search_digits (name f) with
  | Some g => py "Q" ++ g
  | None => py "Unknown"
  end.

(** The line [st.write] shows for the file at index [i]; the arrow is
    U+2192. *)
Definition order_line (i : nat) (f : UploadedFile) : str :=
  str_of_int (N.of_nat i + 1) ++ py ". `" ++ name f ++ py "` "
  ++ [8594] ++ py " " ++ order_label f.

(** The lines of the loop of lines 53-56, in the order in which they are
    written; the heading above them and the rules are fixed drawing and
    are left out. *)
Definition processing_order (sorted_files : list UploadedFile) : list str :=
  imap order_line sorted_files.

(** How a run of the script ends below the uploader.  [st.stop()] ends
    the run where it is called; so does an exception that nothing
    catches, out of the loop ([Crashed]) or out of the assembly of the
    document ([AssemblyFailed]).  What the loop draws for each file is
    left out, as before; of the download only the document is kept, not
    its serialisation. *)
Inductive run_end : Type :=
  | NothingUploaded
  | Waiting (order : list str)
  | StoppedWithoutKey (order : list str) (warning : str)
  | StoppedAtModel (order : list str) (error : str)
  | Crashed (order : list str) (e : str)
  | AssemblyFailed (order : list str)
  | Extracted (order : list str) (doc : list block).

Record page : Type := {
  key_error : option str;
  below : run_end;
}.

Definition key_not_found : str :=
  py "GOOGLE_API_KEY not found. Please set it in your .env file or Streamlit Secrets.".

(** One run of the script: [model_init] is how
    [genai.GenerativeModel('gemini-2.5-flash')] ends, [button] whether the
    button was pressed. *)
Definition script (w : World) (model_init : outcome unit)
    (API_KEY : option str) (uploaded_files : list UploadedFile)
    (button : bool) : State → page * State := λ s,
  let banner := if has_api_key API_KEY then None else Some key_not_found in
  let s := set_extracted_data [] s in
  match uploaded_files with
  | [] => ({| key_error := banner; below := NothingUploaded |}, s)
  | _ :: _ =>
      let sorted_files := sorted extract_number uploaded_files in
      let order := processing_order sorted_files in
      if button then
        if negb (has_api_key API_KEY) then
          ({| key_error := banner;
              below := StoppedWithoutKey order
                         (py "Set GOOGLE_API_KEY in .env or secrets.") |}, s)
        else
          match model_init with
          | Raise e =>
              ({| key_error := banner;
                  below := StoppedAtModel order
                             (py "Failed to initialize model: " ++ e) |}, s)
          | Ok _ =>
              match (clear;; for_each sorted_files (process_file w)) s with
              | (Ok _, s') =>
                  match assemble (extracted_data s') with
                  | Some doc =>
                      ({| key_error := banner; below := Extracted order doc |},
                       s')
                  | None =>
                      ({| key_error := banner; below := AssemblyFailed order |},
                       s')
                  end
              | (Raise e, s') =>
                  ({| key_error := banner; below := Crashed order e |}, s')
              end
          end
      else ({| key_error := banner; below := Waiting order |}, s)
  end.

(** ** Measures used in the properties *)

(** The key of a file name. *)
Definition number_of (n : str) : sort_key :=
  extract_number {| name := n; content := [] |}.

(** ASCII capitals as small letters, everything else as it is: the
    measure of "in any letter case" for the four extensions. *)
Definition fold_char (c : N) : N :=
  if (65 <=? c) && (c <=? 90) then c + 32 else c.

Definition fold_ascii (s : str) : str := fold_char <$> s.

(** The characters of the four extensions, and the dot. *)
Definition ext_chars : list N := [46; 100; 101; 102; 103; 106; 110; 112].

(** A segment of the table other than the one of the ASCII capitals has
    none of these characters among its targets. *)
Definition segment_avoids_ext (seg : N * N * N * N) : bool :=
  let '(lo, hi, step, target) := seg in
  bool_decide (seg = (65, 90, 1, 97))
  || forallb (λ k, (k <? target) || (target + (hi - lo) <? k)) ext_chars.

(** The most remote calls a file can cause: one for an image, two for a
    PDF, none for anything else. *)
Definition call_budget (f : UploadedFile) : nat :=
  if decide (file_ext f ∈ image_exts) then 1
  else if decide (file_ext f = py "pdf") then 2
  else 0.

Definition is_upload_call (c : remote_call) : bool :=
  match c with
  | CallUpload _ _ => true
  | CallGenerate _ => false
  end.

(** [Image.open] raises [e]. *)
Definition failing_image (e : str) : World :=
  {| image_open := λ _, Raise e;
     upload_file := λ _ _ _, Ok {| handle_uri := py "files/1" |};
     generate_content := λ _ _, Ok {| response_text := Ok (Some (py "text")) |};
     duplicate_key_message := λ key, py "duplicate widget key " ++ key |}.

(** * Examples *)

Example split_keeps_empty_fields :
  split DOT (py "a..b") = [py "a"; []; py "b"]
  ∧ split LF [] = [[]]
  ∧ split LF [LF] = [[]; []].
Proof. by vm_compute. Qed.

Example strip_both_ends :
  strip (9 :: py "  a b " ++ [13]) = py "a b" ∧ strip (py "   ") = [].
Proof. by vm_compute. Qed.

Example normalize_keeps_blank_lines :
  normalize (py "  a b  " ++ LF :: py " " ++ LF :: py "c ")
  = py "a b" ++ LF :: LF :: py "c".
Proof. by vm_compute. Qed.

Example extract_number_first_of_two_runs :
  extract_number (upload "page 007b12.jpg") = KInt 7
  ∧ extract_number (upload "cover.jpg") = KInf
  ∧ extract_number {| name := [2407; 2408]; content := [] |} = KInt 12.
Proof. by vm_compute. Qed.

Example sorted_is_stable :
  name <$> sorted extract_number
             [upload "2.jpg"; upload "x.png"; upload "1.pdf"; upload "a2.jpg";
              upload "y.png"; upload "10.jpg"]
  = [py "1.pdf"; py "2.jpg"; py "a2.jpg"; py "10.jpg"; py "x.png"; py "y.png"].
Proof. by vm_compute. Qed.

Example file_ext_is_lowered :
  file_ext (upload "Scan.v2.PDF") = py "pdf"
  ∧ file_ext (upload "notes.txt") = py "txt"
  ∧ file_ext (upload "archive.") = [].
Proof. by vm_compute. Qed.

(** Capitals outside ASCII are folded too; a capital sigma is written
    as a final sigma after a cased letter when no cased letter follows,
    a dot between them not counting. *)
Example lower_follows_the_tables :
  lower [196; 98] = [228; 98]
  ∧ lower [304] = [105; 775]
  ∧ lower [8490] = py "k"
  ∧ lower [931] = [963]
  ∧ lower (py "A" ++ [931]) = py "a" ++ [962]
  ∧ lower (py "A." ++ [931] ++ py "b") = py "a." ++ [963] ++ py "b"
  ∧ file_ext {| name := py "A." ++ [931]; content := [] |} = [962].
Proof. by vm_compute. Qed.

(** A run: tabs and line breaks become elements of their own, a form
    feed is refused. *)
Example add_run_elements :
  add_run (py "a" ++ [9] ++ py "b" ++ [13] ++ py "c" ++ [10])
  = Some [IText (py "a"); ITab; IText (py "b"); IBreak; IText (py "c");
          IBreak]
  ∧ add_run [] = Some []
  ∧ add_run (py "page1" ++ [12] ++ py "page2") = None.
Proof. by vm_compute. Qed.

(** Two uploads, the second to be processed first: the document names the
    sources in the order of processing. *)
Example batch_then_document :
  let s := snd (run_batch by_kind [upload "2.jpg"; upload "1.pdf"] (initial ∅)) in
  (λ doc : list block, block_text <$> doc) <$> assemble (extracted_data s)
  = Some [py "Exact Text Extraction from Images & PDFs";
          py "Files processed in order shown above.";
          py "Source: 1.pdf"; py "Apage"; replicate 60 95;
          py "Source: 2.jpg"; py "Bpage"; replicate 60 95]
  ∧ tmp_files s = ∅
  ∧ length (remote_calls s) = 3%nat.
Proof. by vm_compute. Qed.

(** * Properties *)

(** ** The string functions *)

Section StringFacts.

Lemma split_nonempty sep s : split sep s ≠ [].
Proof. destruct s as [|c s]; simpl; [done|]. by repeat case_match. Qed.

Lemma split_no_sep sep s : Forall (Forall (λ c, c ≠ sep)) (split sep s).
Proof.
  induction s as [|c s IH]; simpl.
  - by repeat constructor.
  - destruct (N.eqb_spec c sep) as [->|Hne].
    + by constructor.
    + destruct (split sep s) as [|l ls]; [by repeat constructor|].
      inversion_clear IH. by repeat constructor.
Qed.

Lemma split_line sep l :
  Forall (λ c, c ≠ sep) l → split sep l = [l].
Proof.
  induction 1 as [|c l Hc _ IH]; simpl; [done|].
  destruct (N.eqb_spec c sep); [done|]. by rewrite IH.
Qed.

Lemma split_app_sep sep l rest :
  Forall (λ c, c ≠ sep) l →
  split sep (l ++ sep :: rest) = l :: split sep rest.
Proof.
  induction 1 as [|c l Hc _ IH]; simpl.
  - by rewrite N.eqb_refl.
  - destruct (N.eqb_spec c sep); [done|]. by rewrite IH.
Qed.

(** Splitting what was joined gives the lines back. *)
Lemma split_join sep ls :
  ls ≠ [] → Forall (Forall (λ c, c ≠ sep)) ls →
  split sep (join [sep] ls) = ls.
Proof.
  induction ls as [|l ls IH]; [done|]. intros _ Hall.
  inversion_clear Hall as [|? ? Hl Hls].
  destruct ls as [|l' ls].
  - by apply split_line.
  - change (join [sep] (l :: l' :: ls))
      with (l ++ sep :: join [sep] (l' :: ls)).
    rewrite split_app_sep by done. f_equal. by apply IH.
Qed.

Lemma lstrip_Forall (P : N → Prop) s : Forall P s → Forall P (lstrip s).
Proof.
  induction 1 as [|c s Hc Hs IH]; simpl; [done|].
  destruct (is_space c); [done|]. by constructor.
Qed.

Lemma rstrip_Forall (P : N → Prop) s : Forall P s → Forall P (rstrip s).
Proof.
  induction 1 as [|c s Hc Hs IH]; simpl; [done|].
  destruct (rstrip s) as [|r rs].
  - destruct (is_space c); by repeat constructor.
  - by constructor.
Qed.

Lemma strip_Forall (P : N → Prop) s : Forall P s → Forall P (strip s).
Proof. intros. by apply rstrip_Forall, lstrip_Forall. Qed.

Lemma lstrip_head s :
  lstrip s = [] ∨ ∃ c t, lstrip s = c :: t ∧ is_space c = false.
Proof.
  induction s as [|c s IH]; simpl; [by left|].
  destruct (is_space c) eqn:Hc; [done|]. right. by exists c, s.
Qed.

Lemma lstrip_fixed c t : is_space c = false → lstrip (c :: t) = c :: t.
Proof. intros Hc. simpl. by rewrite Hc. Qed.

Lemma rstrip_cons_keep c t :
  is_space c = false → rstrip (c :: t) = c :: rstrip t.
Proof. intros Hc. simpl. destruct (rstrip t); [by rewrite Hc|done]. Qed.

Lemma rstrip_idem s : rstrip (rstrip s) = rstrip s.
Proof.
  induction s as [|c s IH]; simpl; [done|].
  destruct (rstrip s) as [|r rs] eqn:Hr.
  - destruct (is_space c) eqn:Hc; simpl; [done|]. by rewrite Hc.
  - change (rstrip (c :: r :: rs)) with
      (match rstrip (r :: rs) with
       | [] => if is_space c then [] else [c]
       | x => c :: x
       end).
    by rewrite IH.
Qed.

(** Stripping a stripped line changes nothing. *)
Lemma strip_idem s : strip (strip s) = strip s.
Proof.
  unfold strip. destruct (lstrip_head s) as [->|(c & t & -> & Hc)].
  - done.
  - rewrite rstrip_cons_keep by done. rewrite lstrip_fixed by done.
    rewrite <- rstrip_cons_keep by done. apply rstrip_idem.
Qed.

(** [rstrip] is [lstrip] seen from the other end. *)
Lemma rstrip_snoc s c :
  rstrip (s ++ [c]) = if is_space c then rstrip s else s ++ [c].
Proof.
  induction s as [|d s IH].
  - simpl. by destruct (is_space c).
  - change (rstrip ((d :: s) ++ [c])) with
      (match rstrip (s ++ [c]) with
       | [] => if is_space d then [] else [d]
       | x => d :: x
       end).
    rewrite IH. destruct (is_space c); [done|].
    by destruct s.
Qed.

Lemma rstrip_reverse s : rstrip s = reverse (lstrip (reverse s)).
Proof.
  induction s as [|c s IH] using rev_ind; [done|].
  rewrite rstrip_snoc, reverse_snoc. simpl.
  destruct (is_space c); [done|]. by rewrite reverse_cons, reverse_involutive.
Qed.

Lemma cleaned_lines_id lines : cleaned_lines lines = lines.
Proof.
  unfold cleaned_lines.
  enough (∀ acc, foldl (λ acc line, if decide (line = [])
                                    then acc ++ [[]] else acc ++ [line])
                       acc lines = acc ++ lines) as H by apply (H []).
  induction lines as [|l lines IH]; intros acc; simpl.
  - by rewrite app_nil_r.
  - rewrite IH. case_decide; subst; by rewrite <- app_assoc.
Qed.

Lemma normalize_eq s : normalize s = join [LF] (strip <$> split LF s).
Proof. unfold normalize. by rewrite cleaned_lines_id. Qed.

Lemma split_normalize s : split LF (normalize s) = strip <$> split LF s.
Proof.
  rewrite normalize_eq. apply split_join.
  - intros H%fmap_nil_inv. by apply split_nonempty in H.
  - apply Forall_fmap. eapply Forall_impl; [apply split_no_sep|].
    intros l Hl. by apply strip_Forall.
Qed.

Lemma normalize_twice s : normalize (normalize s) = normalize s.
Proof.
  rewrite (normalize_eq (normalize s)), split_normalize, normalize_eq.
  f_equal. rewrite <- list_fmap_compose. apply list_fmap_ext.
  intros _ l _. apply strip_idem.
Qed.

End StringFacts.

(** C7.  The normalisation pass is idempotent: for every string, applying
    the split on line breaks, strip of each line and rejoin twice gives the
    same text as applying it once. *)
Theorem normalize_idempotent (s : str) :
  normalize (normalize s) = normalize s.
Proof. apply normalize_twice. Qed.

(** ** Filename Sequencer *)

Section Keys.

Lemma key_lt_irrefl a : key_lt a a = false.
Proof. destruct a; simpl; [apply N.ltb_irrefl|done]. Qed.

Lemma key_lt_asym a b : key_lt a b = true → key_lt b a = false.
Proof.
  destruct a, b; simpl; try done.
  rewrite N.ltb_lt, N.ltb_ge. lia.
Qed.

Lemma key_le_refl a : key_le a a.
Proof. apply key_lt_irrefl. Qed.

Lemma key_le_trans a b c : key_le a b → key_le b c → key_le a c.
Proof.
  unfold key_le. destruct a, b, c; simpl; try done.
  rewrite !N.ltb_ge. lia.
Qed.

Lemma key_le_antisym a b : key_le a b → key_le b a → a = b.
Proof.
  unfold key_le. destruct a, b; simpl; try done.
  rewrite !N.ltb_ge. intros. f_equal. lia.
Qed.

(** Every key is at most infinity, and only infinity is at least it. *)
Lemma key_le_inf a : key_le a KInf.
Proof. done. Qed.


End Keys.

Section Sorted.

Context {A : Type} (key : A → sort_key).

Let le_by (x y : A) : Prop := key_le (key x) (key y).

Lemma insert_by_perm x l : insert_by key x l ≡ₚ x :: l.
Proof.
  induction l as [|y l IH]; simpl; [done|].
  destruct (key_lt (key y) (key x)); [|done].
  rewrite IH. apply perm_swap.
Qed.

Lemma sorted_perm l : sorted key l ≡ₚ l.
Proof.
  induction l as [|x l IH]; simpl; [done|].
  by rewrite insert_by_perm, IH.
Qed.

Lemma insert_by_sorted x l :
  StronglySorted le_by l → StronglySorted le_by (insert_by key x l).
Proof.
  induction 1 as [|y l Hl IH Hy]; simpl.
  - by repeat constructor.
  - destruct (key_lt (key y) (key x)) eqn:Hlt.
    + constructor; [done|]. rewrite insert_by_perm.
      constructor; [|done]. by apply key_lt_asym.
    + constructor; [by constructor|]. constructor; [done|].
      eapply Forall_impl; [exact Hy|]. intros z Hz.
      by apply key_le_trans with (key y).
Qed.

Lemma sorted_sorted l : StronglySorted le_by (sorted key l).
Proof.
  induction l as [|x l IH]; simpl; [constructor|].
  by apply insert_by_sorted.
Qed.

(** Inserting [x] puts it in front of the elements with its own key. *)
Lemma filter_insert_by k x l :
  filter (λ y, key y = k) (insert_by key x l)
  = filter (λ y, key y = k) (x :: l).
Proof.
  induction l as [|y l IH]; simpl; [done|].
  destruct (key_lt (key y) (key x)) eqn:Hlt; [|done].
  rewrite !filter_cons in *. rewrite IH.
  destruct (decide (key y = k)) as [Hy|]; [|done].
  destruct (decide (key x = k)) as [Hx|]; [|done].
  rewrite Hx, Hy, key_lt_irrefl in Hlt. done.
Qed.

Lemma sorted_stable k l :
  filter (λ y, key y = k) (sorted key l) = filter (λ y, key y = k) l.
Proof.
  induction l as [|x l IH]; simpl; [done|].
  rewrite filter_insert_by, !filter_cons. by rewrite IH.
Qed.

Lemma insert_by_int_tail x n l t :
  key x = KInt n → Forall (λ y, key y = KInf) t →
  insert_by key x (l ++ t) = insert_by key x l ++ t.
Proof.
  intros Hx Ht. induction l as [|y l IH]; simpl.
  - destruct Ht as [|z t Hz _]; simpl; [done|]. by rewrite Hz, Hx.
  - rewrite IH. by destruct (key_lt (key y) (key x)).
Qed.

Lemma insert_by_inf_tail x l t :
  key x = KInf →
  Forall (λ y, key y ≠ KInf) l → Forall (λ y, key y = KInf) t →
  insert_by key x (l ++ t) = l ++ x :: t.
Proof.
  intros Hx Hl Ht. induction Hl as [|y l Hy _ IH]; simpl.
  - destruct Ht as [|z t Hz _]; simpl; [done|]. by rewrite Hz, Hx.
  - rewrite IH, Hx. by destruct (key y).
Qed.

(** The elements without a finite key follow all the others, in the order
    in which they came. *)
Lemma sorted_inf_last l :
  sorted key l =
    sorted key (filter (λ y, key y ≠ KInf) l)
    ++ filter (λ y, key y = KInf) l.
Proof.
  induction l as [|x l IH]; simpl; [done|].
  assert (Forall (λ y, key y = KInf) (filter (λ y, key y = KInf) l)) as Ht.
  { apply Forall_forall. intros y. rewrite list_elem_of_filter. by intros [? _]. }
  rewrite !filter_cons. rewrite IH at 1.
  destruct (key x) as [n|] eqn:Hx.
  - rewrite decide_True, decide_False by done. simpl.
    by apply insert_by_int_tail with n.
  - rewrite decide_False, decide_True by auto.
    apply insert_by_inf_tail; [done| |done].
    apply Forall_forall. intros y.
    rewrite sorted_perm, list_elem_of_filter. by intros [? _].
Qed.

End Sorted.

Section ExtractNumber.

Lemma skip_to_digit_none s :
  skip_to_digit s = [] ↔ Forall (λ c, is_digit c = false) s.
Proof.
  induction s as [|c s IH]; simpl; [done|].
  destruct (is_digit c) eqn:Hc.
  - split; [done|]. inversion 1; congruence.
  - rewrite IH. split; [by constructor|by inversion 1].
Qed.

Lemma skip_to_digit_app pre s :
  Forall (λ c, is_digit c = false) pre →
  skip_to_digit (pre ++ s) = skip_to_digit s.
Proof. induction 1 as [|c pre Hc _ IH]; simpl; [done|]. by rewrite Hc. Qed.

Lemma skip_to_digit_digit c s :
  is_digit c = true → skip_to_digit (c :: s) = c :: s.
Proof. intros Hc. simpl. by rewrite Hc. Qed.

Lemma digit_run_app ds post :
  Forall (λ c, is_digit c = true) ds →
  (∀ c, head post = Some c → is_digit c = false) →
  digit_run (ds ++ post) = ds.
Proof.
  intros Hds Hpost. induction Hds as [|c ds Hc _ IH]; simpl.
  - destruct post as [|c post]; simpl; [done|]. by rewrite Hpost.
  - by rewrite Hc, IH.
Qed.

(** A name without a digit has the infinite key, and only such a name. *)
Lemma extract_number_inf file :
  extract_number file = KInf ↔ Forall (λ c, is_digit c = false) (name file).
Proof.
  unfold extract_number, re_search_digits.
  rewrite <- skip_to_digit_none.
  destruct (skip_to_digit (name file)); done.
Qed.

(** The key of a name with a digit is the value of its first run of
    digits, taken as long as it goes. *)
Lemma extract_number_first_run file pre ds post :
  name file = pre ++ ds ++ post →
  Forall (λ c, is_digit c = false) pre →
  ds ≠ [] → Forall (λ c, is_digit c = true) ds →
  (∀ c, head post = Some c → is_digit c = false) →
  extract_number file = KInt (int ds).
Proof.
  intros Hname Hpre Hne Hds Hpost.
  unfold extract_number, re_search_digits.
  rewrite Hname, skip_to_digit_app by done.
  destruct ds as [|d ds]; [done|]. inversion Hds as [|? ? Hd Hds']; subst.
  change ((d :: ds) ++ post) with (d :: (ds ++ post)).
  rewrite skip_to_digit_digit by done.
  change (d :: (ds ++ post)) with ((d :: ds) ++ post).
  by rewrite digit_run_app.
Qed.

End ExtractNumber.

(** C1.  The Filename Sequencer orders every list of uploads by the
    integer value of the first run of decimal digits in each file name,
    ascending; a name without a digit has the infinite key and so comes
    after every name with one; and the sort is stable: the files of one
    key, the files without a digit among them, keep their upload order. *)
Theorem sorted_files_by_number_stable (uploaded_files : list UploadedFile) :
  let sorted_files := sorted extract_number uploaded_files in
  (∀ file pre ds post,
     name file = pre ++ ds ++ post →
     Forall (λ c, is_digit c = false) pre →
     ds ≠ [] → Forall (λ c, is_digit c = true) ds →
     (∀ c, head post = Some c → is_digit c = false) →
     extract_number file = KInt (int ds)) ∧
  (∀ file,
     Forall (λ c, is_digit c = false) (name file) ↔
     extract_number file = KInf) ∧
  (∀ k, key_le k KInf) ∧
  sorted_files ≡ₚ uploaded_files ∧
  StronglySorted (λ f g, key_le (extract_number f) (extract_number g))
                 sorted_files ∧
  (∀ k, filter (λ f, extract_number f = k) sorted_files
        = filter (λ f, extract_number f = k) uploaded_files) ∧
  sorted_files =
    sorted extract_number (filter (λ f, extract_number f ≠ KInf) uploaded_files)
    ++ filter (λ f, extract_number f = KInf) uploaded_files.
Proof.
  repeat split.
  - apply extract_number_first_run.
  - by apply extract_number_inf.
  - by apply extract_number_inf.
  - apply sorted_perm.
  - apply sorted_sorted.
  - intros k. apply sorted_stable.
  - apply sorted_inf_last.
Qed.

Lemma sorted_files_witness :
  name (upload "page 007b12.jpg") = py "page " ++ py "007" ++ py "b12.jpg"
  ∧ extract_number (upload "page 007b12.jpg") = KInt 7
  ∧ name <$> sorted extract_number [upload "2.jpg"; upload "1.pdf"]
    = [py "1.pdf"; py "2.jpg"].
Proof.
  split; [by vm_compute|]. split; [|by vm_compute].
  refine (proj1 (sorted_files_by_number_stable [upload "2.jpg"; upload "1.pdf"])
            (upload "page 007b12.jpg") (py "page ") (py "007") (py "b12.jpg")
            _ _ _ _ _).
  - by vm_compute.
  - apply (bool_decide_unpack _). by vm_compute.
  - done.
  - apply (bool_decide_unpack _). by vm_compute.
  - intros c [= <-]. by vm_compute.
Defined.

(** ** The statements of the script *)

Ltac unfold_M :=
  unfold mbind, mret, M_bind, M_ret, lift, try_except, try_finally in *;
  simpl in *.

(** [text_of_response] leaves the state as it is. *)
Lemma text_of_response_state r s : snd (text_of_response r s) = s.
Proof.
  unfold text_of_response. unfold_M.
  destruct (response_text r) as [[[|c t]|]|e]; done.
Qed.

Ltac after_text_of_response r :=
  match goal with
  | |- context [text_of_response r ?s'] =>
      let H := fresh in
      pose proof (text_of_response_state r s') as H;
      destruct (text_of_response r s'); simpl in *; subst
  end.

Section Statements.

Context (w : World).

(** A response without text gives the placeholder. *)
Lemma text_of_response_no_text r s :
  response_text r = Ok None ∨ response_text r = Ok (Some []) →
  text_of_response r s = (Ok no_text_detected, s).
Proof. unfold text_of_response. unfold_M. by intros [-> | ->]. Qed.

Lemma transcribe_image_keeps file :
  keeps_results (transcribe_image w file)
  ∧ keeps_tmp_files (transcribe_image w file).
Proof.
  split; intros s;
    unfold transcribe_image, open_image, model_generate_content; unfold_M;
    destruct (image_open w (content file)); simpl; try done;
    destruct (generate_content w _ _) as [r|]; simpl; try done;
    by after_text_of_response r.
Qed.

Lemma pdf_call_keeps file tmp_path :
  keeps_results (pdf_call w file tmp_path)
  ∧ keeps_tmp_files (pdf_call w file tmp_path).
Proof.
  split; intros s;
    unfold pdf_call, genai_upload_file, model_generate_content; unfold_M;
    destruct (upload_file w _ _ _); simpl; try done;
    destruct (generate_content w _ _) as [r|]; simpl; try done;
    by after_text_of_response r.
Qed.

(** The upload is the first remote call of [pdf_call], and it is given
    the file under the path. *)
Lemma pdf_call_uploads file tmp_path s :
  ∃ calls, remote_calls (snd (pdf_call w file tmp_path s))
           = remote_calls s
             ++ CallUpload (tmp_files s !! tmp_path) (name file) :: calls.
Proof.
  unfold pdf_call, genai_upload_file, model_generate_content; unfold_M.
  destruct (upload_file w _ _ _); simpl; [|by eexists].
  destruct (generate_content w _ _) as [r|]; simpl.
  - after_text_of_response r. simpl. rewrite <- app_assoc. by eexists.
  - rewrite <- app_assoc. by eexists.
Qed.

Lemma set_tmp_files_twice t t' s :
  set_tmp_files t (set_tmp_files t' s) = set_tmp_files t s.
Proof. done. Qed.

(** The PDF branch as a whole: the temporary file is made, the call runs,
    its exception becomes the placeholder, and the file is removed. *)
Lemma transcribe_pdf_run file s :
  let tmp_path := fresh (dom (tmp_files s)) in
  let s1 := set_tmp_files (<[tmp_path := content file]> (tmp_files s)) s in
  transcribe_pdf w file s =
    (Ok (match fst (pdf_call w file tmp_path s1) with
         | Ok t => t
         | Raise e => gemini_error e
         end),
     set_tmp_files (tmp_files s) (snd (pdf_call w file tmp_path s1))).
Proof.
  intros tmp_path s1.
  assert (tmp_files s !! tmp_path = None) as Hfresh.
  { apply not_elem_of_dom, is_fresh. }
  unfold transcribe_pdf, named_temporary_file, cleanup, path_exists, unlink.
  unfold_M. fold tmp_path. fold s1.
  destruct (pdf_call_keeps file tmp_path) as [_ Htmp].
  specialize (Htmp s1). simpl in Htmp.
  destruct (pdf_call w file tmp_path s1) as [[t|e] s2]; simpl in *;
    rewrite Htmp, lookup_insert_eq, bool_decide_eq_true_2 by eauto; simpl;
    by rewrite Htmp, delete_insert_id.
Qed.

Lemma transcribe_pdf_keeps file :
  keeps_results (transcribe_pdf w file)
  ∧ keeps_tmp_files (transcribe_pdf w file).
Proof.
  split; intros s; rewrite transcribe_pdf_run; simpl; [|done].
  destruct (pdf_call_keeps file (fresh (dom (tmp_files s)))) as [Hres _].
  apply (Hres (set_tmp_files _ s)).
Qed.

Lemma transcribe_keeps file :
  keeps_results (transcribe w file) ∧ keeps_tmp_files (transcribe w file).
Proof.
  unfold transcribe. repeat case_decide.
  - apply transcribe_image_keeps.
  - apply transcribe_pdf_keeps.
  - done.
Qed.

Lemma pdf_not_image : py "pdf" ∉ image_exts.
Proof. apply (bool_decide_unpack _). by vm_compute. Qed.

Lemma transcribe_pdf_ext file :
  file_ext file = py "pdf" → transcribe w file = transcribe_pdf w file.
Proof.
  intros Hext. unfold transcribe. rewrite Hext.
  rewrite decide_False by apply pdf_not_image. by rewrite decide_True.
Qed.

Lemma transcribe_unsupported file s :
  file_ext file ∉ image_exts ++ [py "pdf"] →
  transcribe w file s = (Ok unsupported_file_type, s).
Proof.
  intros [Himg [Hpdf _]%not_elem_of_cons]%not_elem_of_app.
  unfold transcribe. by rewrite !decide_False.
Qed.

(** The loop body, case by case. *)
Lemma process_file_run file s :
  process_file w file s =
    match transcribe w file s with
    | (Ok full_text, s1) =>
        let stored := {| filename := name file;
                         text := normalize full_text |} in
        let key := py "text_" ++ name file in
        if decide (key ∈ widget_keys s1)
        then (Ok (),
              set_extracted_data
                (extracted_data s1
                 ++ [stored;
                     {| filename := name file;
                        text := unexpected_error (duplicate_key_message w key) |}])
                s1)
        else (Ok (),
              set_widget_keys ({[key]} ∪ widget_keys s1)
                (set_extracted_data (extracted_data s1 ++ [stored]) s1))
    | (Raise e, s1) =>
        (Ok (),
         set_extracted_data
           (extracted_data s1
            ++ [{| filename := name file; text := unexpected_error e |}])
           s1)
    end.
Proof.
  unfold process_file, store_and_show, append, text_area. unfold_M.
  destruct (transcribe w file s) as [[t|e] s1]; simpl; [|done].
  case_decide; simpl; [|done].
  unfold set_extracted_data; simpl. by rewrite <- app_assoc.
Qed.

Lemma process_file_ok file s : fst (process_file w file s) = Ok ().
Proof.
  rewrite process_file_run.
  destruct (transcribe w file s) as [[t|e] s1]; simpl; [|done].
  by case_decide.
Qed.

Lemma process_file_tmp_files file : keeps_tmp_files (process_file w file).
Proof.
  intros s. rewrite process_file_run.
  pose proof (proj2 (transcribe_keeps file) s) as H.
  destruct (transcribe w file s) as [[t|e] s1]; simpl in *; [|done].
  by case_decide.
Qed.

End Statements.

(** ** The batch *)

Section Batch.

Context (w : World).

(** Processing a file adds one entry under its name, or two. *)
Lemma process_file_entries file s :
  ∃ new,
    extracted_data (snd (process_file w file s)) = extracted_data s ++ new
    ∧ Forall (λ it, filename it = name file) new
    ∧ (length new = 1 ∨ length new = 2)%nat.
Proof.
  rewrite process_file_run.
  destruct (proj1 (transcribe_keeps w file) s) as [Hdata _].
  destruct (transcribe w file s) as [[t|e] s1]; simpl in *; rewrite <- Hdata.
  - case_decide; simpl; eexists; (split; [done|]);
      split; [by repeat constructor|by auto|by repeat constructor|by auto].
  - eexists. split; [done|]. split; [by repeat constructor|by auto].
Qed.

(** What is stored for a file, by the outcome of its transcription. *)
Lemma process_file_stored file s :
  match fst (transcribe w file s) with
  | Ok full_text =>
      ∃ rest,
        extracted_data (snd (process_file w file s))
        = extracted_data s
          ++ {| filename := name file; text := normalize full_text |} :: rest
        ∧ (rest = [] ∨
           ∃ e, rest = [{| filename := name file;
                           text := unexpected_error e |}])
  | Raise e =>
      extracted_data (snd (process_file w file s))
      = extracted_data s
        ++ [{| filename := name file; text := unexpected_error e |}]
  end.
Proof.
  rewrite process_file_run.
  destruct (proj1 (transcribe_keeps w file) s) as [Hdata _].
  destruct (transcribe w file s) as [[t|e] s1]; simpl in *; rewrite <- Hdata.
  - case_decide; simpl; eexists; split; eauto.
  - done.
Qed.

(** The loop never stops at a file: the next one is always processed. *)
Lemma for_each_cons file files s :
  for_each (file :: files) (process_file w) s
  = for_each files (process_file w) (snd (process_file w file s)).
Proof.
  simpl. unfold_M. pose proof (process_file_ok w file s) as Hok.
  destruct (process_file w file s) as [[[]|e] s']; simpl in *; done.
Qed.

Lemma for_each_ok files s : fst (for_each files (process_file w) s) = Ok ().
Proof.
  revert s. induction files as [|file files IH]; intros s; [done|].
  by rewrite for_each_cons.
Qed.

Lemma for_each_entries files s :
  ∃ new,
    extracted_data (snd (for_each files (process_file w) s))
    = extracted_data s ++ new
    ∧ name <$> files `sublist_of` filename <$> new.
Proof.
  revert s. induction files as [|file files IH]; intros s.
  - exists []. by rewrite app_nil_r.
  - rewrite for_each_cons.
    destruct (process_file_entries file s) as (new1 & Hnew1 & Hnames & Hlen).
    destruct (IH (snd (process_file w file s))) as (new2 & Hnew2 & Hsub).
    exists (new1 ++ new2). split.
    + by rewrite Hnew2, Hnew1, <- app_assoc.
    + rewrite fmap_app, fmap_cons.
      change (name file :: (name <$> files))
        with ([name file] ++ (name <$> files)).
      apply sublist_app; [|done].
      destruct new1 as [|it new1]; [simpl in Hlen; lia|].
      inversion_clear Hnames as [|? ? Hit _]. rewrite fmap_cons, Hit.
      apply sublist_skip, sublist_nil_l.
Qed.

Lemma for_each_tmp_files files : keeps_tmp_files (for_each files (process_file w)).
Proof.
  intros s. revert s. induction files as [|file files IH]; intros s; [done|].
  by rewrite for_each_cons, IH, process_file_tmp_files.
Qed.

(** With a text-area key of its own, a file leaves exactly one entry. *)
Lemma process_file_fresh_key file s :
  py "text_" ++ name file ∉ widget_keys s →
  ∃ it,
    extracted_data (snd (process_file w file s)) = extracted_data s ++ [it]
    ∧ widget_keys (snd (process_file w file s))
      ⊆ {[py "text_" ++ name file]} ∪ widget_keys s.
Proof.
  intros Hkey. rewrite process_file_run.
  destruct (proj1 (transcribe_keeps w file) s) as [Hdata Hkeys].
  destruct (transcribe w file s) as [[t|e] s1]; simpl in *.
  - rewrite Hdata, Hkeys, decide_False by done. simpl. by eexists.
  - rewrite Hdata. eexists. split; [done|]. simpl. rewrite Hkeys.
    apply union_subseteq_r.
Qed.

Lemma for_each_distinct_names files s :
  NoDup (name <$> files) →
  (∀ file, file ∈ files → py "text_" ++ name file ∉ widget_keys s) →
  length (extracted_data (snd (for_each files (process_file w) s)))
  = (length (extracted_data s) + length files)%nat.
Proof.
  revert s. induction files as [|file files IH]; intros s Hnd Hkeys.
  - simpl. lia.
  - rewrite for_each_cons. rewrite fmap_cons in Hnd.
    apply NoDup_cons in Hnd as [Hfile Hnd].
    destruct (process_file_fresh_key file s) as (it & Hdata & Hsub).
    { apply Hkeys. by left. }
    rewrite IH; [| done |].
    + rewrite Hdata, length_app. simpl. lia.
    + intros file' Hin Hbad. apply Hsub in Hbad.
      apply elem_of_union in Hbad as [Hbad|Hbad].
      * apply elem_of_singleton in Hbad. apply app_inv_head in Hbad.
        apply Hfile. rewrite <- Hbad. by apply list_elem_of_fmap_2.
      * revert Hbad. apply Hkeys. by right.
Qed.

(** When the uploads have different names, the batch gives one entry for
    each. *)
Lemma run_batch_distinct_names uploaded_files tmp :
  NoDup (name <$> uploaded_files) →
  length (extracted_data (snd (run_batch w uploaded_files (initial tmp))))
  = length uploaded_files.
Proof.
  intros Hnd. unfold run_batch, clear. unfold_M.
  rewrite for_each_distinct_names; simpl.
  - by rewrite sorted_perm.
  - by rewrite sorted_perm.
  - intros file _. apply not_elem_of_empty.
Qed.

Lemma run_batch_ok uploaded_files s :
  fst (run_batch w uploaded_files s) = Ok ().
Proof. unfold run_batch, clear. unfold_M. apply for_each_ok. Qed.

Lemma run_batch_tmp_files uploaded_files :
  keeps_tmp_files (run_batch w uploaded_files).
Proof.
  intros s. unfold run_batch, clear. unfold_M. by rewrite for_each_tmp_files.
Qed.

End Batch.

(** ** Results and placeholders of the batch *)

(** C3.  The batch is meant to leave exactly one entry per uploaded file.
    Here the same name is uploaded twice and every call succeeds: the
    second text area asks for the key of the first, the exception is
    raised after the entry of the second file was appended, and the
    handler appends another one.  Two files, three entries. *)
Theorem same_name_twice_three_results :
  let uploaded_files := [upload "1.jpg"; upload "1.jpg"] in
  let w := answering (Ok (Some (py "A"))) in
  let s := snd (run_batch w uploaded_files (initial ∅)) in
  length uploaded_files = 2%nat
  ∧ filename <$> extracted_data s = [py "1.jpg"; py "1.jpg"; py "1.jpg"]
  ∧ text <$> extracted_data s
    = [py "A"; py "A";
       py "[Unexpected error: duplicate widget key text_1.jpg]"].
Proof. by vm_compute. Qed.

(** C4.  Whatever the kind of the file, and whether the raw text is a
    transcription or one of the placeholders, the entry stored at line 166
    holds the normalised raw text; the text that the outer handler stores
    is the unexpected-error placeholder as it is, not normalised. *)
Theorem stored_text_normalized_or_unexpected
    (w : World) (file : UploadedFile) (s : State) :
  match fst (transcribe w file s) with
  | Ok full_text =>
      ∃ rest,
        extracted_data (snd (process_file w file s))
        = extracted_data s
          ++ {| filename := name file; text := normalize full_text |} :: rest
        ∧ (rest = [] ∨
           ∃ e, rest = [{| filename := name file;
                           text := unexpected_error e |}])
  | Raise e =>
      extracted_data (snd (process_file w file s))
      = extracted_data s
        ++ [{| filename := name file; text := unexpected_error e |}]
  end.
Proof. apply process_file_stored. Qed.

(** The message of an exception is stored with the blanks around its line
    break: that text is not the result of any normalisation. *)
Lemma unexpected_error_text_not_normalized :
  let e := py "RPC terminated with:" ++ LF :: 9 :: py "status = UNAVAILABLE" in
  let s := snd (process_file (failing_generate e) (upload "1.jpg") (initial ∅)) in
  ∃ it, extracted_data s = [it] ∧ ¬ ∃ raw, text it = normalize raw.
Proof.
  eexists. split; [by vm_compute|].
  intros [raw Hraw]. pose proof (normalize_twice raw) as Hidem.
  rewrite <- Hraw in Hidem. vm_compute in Hidem. discriminate Hidem.
Qed.

Section Failures.

Context (w : World).

Lemma text_of_response_raises r e s :
  response_text r = Raise e → text_of_response r s = (Raise e, s).
Proof. intros Hr. unfold text_of_response. unfold_M. by rewrite Hr. Qed.

(** The three calls of the PDF stage: whichever raises, the raw text is
    the Gemini placeholder with its message. *)
Lemma pdf_stage_failure file s e :
  file_ext file = py "pdf" →
  upload_file w (length (remote_calls s)) (Some (content file)) (name file)
    = Raise e
  ∨ (∃ h,
       upload_file w (length (remote_calls s)) (Some (content file))
         (name file) = Ok h
       ∧ (generate_content w (S (length (remote_calls s)))
            [PText prompt_pdf; PFile h] = Raise e
          ∨ ∃ r,
              generate_content w (S (length (remote_calls s)))
                [PText prompt_pdf; PFile h] = Ok r
              ∧ response_text r = Raise e)) →
  fst (transcribe w file s) = Ok (gemini_error e).
Proof.
  intros Hext Hfail.
  rewrite transcribe_pdf_ext, transcribe_pdf_run by done. simpl.
  unfold pdf_call, genai_upload_file, model_generate_content. unfold_M.
  rewrite lookup_insert_eq.
  destruct Hfail as [Hup|(h & Hup & [Hgen|(r & Hgen & Hr)])];
    rewrite Hup; simpl; [done|..];
    rewrite length_app, Nat.add_1_r, Hgen; simpl; [done|].
  by rewrite (text_of_response_raises r e).
Qed.

(** The three calls of the image branch: whichever raises, the exception
    leaves the transcription. *)
Lemma image_failure file s e :
  file_ext file ∈ image_exts →
  image_open w (content file) = Raise e
  ∨ (∃ img,
       image_open w (content file) = Ok img
       ∧ (generate_content w (length (remote_calls s))
            [PText prompt_image; PImage img] = Raise e
          ∨ ∃ r,
              generate_content w (length (remote_calls s))
                [PText prompt_image; PImage img] = Ok r
              ∧ response_text r = Raise e)) →
  fst (transcribe w file s) = Raise e.
Proof.
  intros Hext Hfail. unfold transcribe. rewrite decide_True by done.
  unfold transcribe_image, open_image, model_generate_content. unfold_M.
  destruct Hfail as [Himg|(img & Himg & [Hgen|(r & Hgen & Hr)])];
    rewrite Himg; simpl; [done|..]; rewrite Hgen; simpl; [done|].
  by rewrite (text_of_response_raises r e).
Qed.

Lemma stored_after_gemini file s e :
  fst (transcribe w file s) = Ok (gemini_error e) →
  ∃ rest,
    extracted_data (snd (process_file w file s))
    = extracted_data s
      ++ {| filename := name file; text := normalize (gemini_error e) |}
         :: rest.
Proof.
  intros Hraw. pose proof (process_file_stored w file s) as Hstored.
  rewrite Hraw in Hstored. destruct Hstored as (rest & -> & _).
  by exists rest.
Qed.

Lemma stored_after_raise file s e :
  fst (transcribe w file s) = Raise e →
  extracted_data (snd (process_file w file s))
  = extracted_data s
    ++ [{| filename := name file; text := unexpected_error e |}].
Proof.
  intros Hraw. pose proof (process_file_stored w file s) as Hstored.
  by rewrite Hraw in Hstored.
Qed.

(** The text area refuses its key: the entry is there already and the
    handler adds its own. *)
Lemma stored_after_duplicate_key file s raw :
  fst (transcribe w file s) = Ok raw →
  py "text_" ++ name file ∈ widget_keys s →
  extracted_data (snd (process_file w file s))
  = extracted_data s
    ++ [{| filename := name file; text := normalize raw |};
        {| filename := name file;
           text := unexpected_error
                     (duplicate_key_message w (py "text_" ++ name file)) |}].
Proof.
  intros Hraw Hkey. rewrite process_file_run.
  destruct (proj1 (transcribe_keeps w file) s) as [Hdata Hkeys].
  destruct (transcribe w file s) as [[t|e] s1]; simpl in *; [|done].
  injection Hraw as ->. rewrite Hkeys, decide_True by done. simpl.
  by rewrite Hdata.
Qed.

Lemma run_batch_names_sublist uploaded_files s :
  name <$> sorted extract_number uploaded_files
  `sublist_of`
  filename <$> extracted_data (snd (run_batch w uploaded_files s)).
Proof.
  unfold run_batch, clear. unfold_M.
  by destruct (for_each_entries w (sorted extract_number uploaded_files)
                 (set_extracted_data [] s)) as (new & -> & Hsub).
Qed.

End Failures.

(** C5.  A failure while a file is processed is caught with that file.
    In the upload and call stage of a PDF, be it the upload, the call of
    the model or the reading of its answer that raises, the message
    becomes the raw text "[Gemini error: <message>]", which is stored
    like any other raw text.  A failure anywhere else, which is the
    opening of an image, the call of the model for it, the reading of its
    answer or the text area for the file, is stored as "[Unexpected
    error: <message>]".  Either way the loop body ends normally and the
    loop goes on with the next file: the batch never raises, and every
    file of it leaves its entry, in the order of the batch. *)
Theorem per_file_failure_captured
    (w : World) (file : UploadedFile) (s : State) (e : str) :
  let gemini := py "[Gemini error: " ++ e ++ py "]" in
  let unexpected := py "[Unexpected error: " ++ e ++ py "]" in
  let calls := length (remote_calls s) in
  let captured_in_pdf_stage :=
    fst (transcribe w file s) = Ok gemini
    ∧ ∃ rest,
        extracted_data (snd (process_file w file s))
        = extracted_data s
          ++ {| filename := name file; text := normalize gemini |} :: rest in
  let captured_elsewhere :=
    extracted_data (snd (process_file w file s))
    = extracted_data s ++ [{| filename := name file; text := unexpected |}] in
  (file_ext file = py "pdf" →
   (upload_file w calls (Some (content file)) (name file) = Raise e →
    captured_in_pdf_stage)
   ∧ (∀ h,
        upload_file w calls (Some (content file)) (name file) = Ok h →
        generate_content w (S calls) [PText prompt_pdf; PFile h] = Raise e →
        captured_in_pdf_stage)
   ∧ (∀ h r,
        upload_file w calls (Some (content file)) (name file) = Ok h →
        generate_content w (S calls) [PText prompt_pdf; PFile h] = Ok r →
        response_text r = Raise e →
        captured_in_pdf_stage))
  ∧ (file_ext file ∈ [py "jpg"; py "jpeg"; py "png"] →
     (image_open w (content file) = Raise e → captured_elsewhere)
     ∧ (∀ img,
          image_open w (content file) = Ok img →
          generate_content w calls [PText prompt_image; PImage img] = Raise e →
          captured_elsewhere)
     ∧ (∀ img r,
          image_open w (content file) = Ok img →
          generate_content w calls [PText prompt_image; PImage img] = Ok r →
          response_text r = Raise e →
          captured_elsewhere))
  ∧ (∀ raw,
       fst (transcribe w file s) = Ok raw →
       py "text_" ++ name file ∈ widget_keys s →
       duplicate_key_message w (py "text_" ++ name file) = e →
       extracted_data (snd (process_file w file s))
       = extracted_data s
         ++ [{| filename := name file; text := normalize raw |};
             {| filename := name file; text := unexpected |}])
  ∧ fst (process_file w file s) = Ok ()
  ∧ (∀ files,
       for_each (file :: files) (process_file w) s
       = for_each files (process_file w) (snd (process_file w file s)))
  ∧ (∀ uploaded_files s0,
       fst (run_batch w uploaded_files s0) = Ok ()
       ∧ name <$> sorted extract_number uploaded_files
         `sublist_of`
         filename <$> extracted_data (snd (run_batch w uploaded_files s0))).
Proof.
  intros gemini unexpected calls captured_in_pdf_stage captured_elsewhere.
  assert (∀ Hfail : fst (transcribe w file s) = Ok (gemini_error e),
            captured_in_pdf_stage) as Hpdf.
  { intros Hraw. split; [done|]. by apply stored_after_gemini. }
  assert (∀ Hfail : fst (transcribe w file s) = Raise e,
            captured_elsewhere) as Himage.
  { intros Hraw. by apply stored_after_raise. }
  split; [|split; [|split; [|split; [|split]]]].
  - intros Hext. split; [|split].
    + intros Hup. apply Hpdf, pdf_stage_failure; [done|]. by left.
    + intros h Hup Hgen. apply Hpdf, pdf_stage_failure; [done|].
      right. exists h. split; [done|]. by left.
    + intros h r Hup Hgen Hr. apply Hpdf, pdf_stage_failure; [done|].
      right. exists h. split; [done|]. right. by exists r.
  - intros Hext. split; [|split].
    + intros Himg. apply Himage, image_failure; [done|]. by left.
    + intros img Himg Hgen. apply Himage, image_failure; [done|].
      right. exists img. split; [done|]. by left.
    + intros img r Himg Hgen Hr. apply Himage, image_failure; [done|].
      right. exists img. split; [done|]. right. by exists r.
  - intros raw Hraw Hkey <-. by apply stored_after_duplicate_key.
  - apply process_file_ok.
  - intros files. apply for_each_cons.
  - intros uploaded_files s0. split; [apply run_batch_ok|].
    apply run_batch_names_sublist.
Qed.

Lemma per_file_failure_witness :
  file_ext (upload "2.pdf") = py "pdf"
  ∧ fst (transcribe (failing_upload (py "503 unavailable")) (upload "2.pdf")
           (initial ∅))
    = Ok (py "[Gemini error: 503 unavailable]")
  ∧ fst (transcribe (answering (Raise (py "blocked"))) (upload "2.pdf")
           (initial ∅))
    = Ok (py "[Gemini error: blocked]")
  ∧ (file_ext (upload "1.jpg") ∈ [py "jpg"; py "jpeg"; py "png"])
  ∧ extracted_data
      (snd (process_file (failing_generate (py "quota")) (upload "1.jpg")
              (initial ∅)))
    = [{| filename := py "1.jpg"; text := py "[Unexpected error: quota]" |}].
Proof.
  assert (file_ext (upload "2.pdf") = py "pdf") as Hpdf by by vm_compute.
  assert (file_ext (upload "1.jpg") ∈ [py "jpg"; py "jpeg"; py "png"])
    as Himg.
  { apply (bool_decide_unpack _). by vm_compute. }
  split; [exact Hpdf|]. split; [|split; [|split; [exact Himg|]]].
  - exact (proj1 (proj1 (proj1 (per_file_failure_captured
                                  (failing_upload (py "503 unavailable"))
                                  (upload "2.pdf") (initial ∅)
                                  (py "503 unavailable")) Hpdf)
                    eq_refl)).
  - exact (proj1 (proj2 (proj2 (proj1 (per_file_failure_captured
                                         (answering (Raise (py "blocked")))
                                         (upload "2.pdf") (initial ∅)
                                         (py "blocked")) Hpdf))
                    {| handle_uri := py "files/1" |}
                    {| response_text := Raise (py "blocked") |}
                    eq_refl eq_refl eq_refl)).
  - exact (proj1 (proj2 (proj1 (proj2 (per_file_failure_captured
                                         (failing_generate (py "quota"))
                                         (upload "1.jpg") (initial ∅)
                                         (py "quota"))) Himg))
             {| image_data := [] |} eq_refl eq_refl).
Defined.

(** ** The Transcription Adapter *)

Section Extension.

Lemma Forall_not_elem (sep : N) (l : str) :
  Forall (λ c, c ≠ sep) l ↔ sep ∉ l.
Proof.
  rewrite Forall_forall. split.
  - intros H Hin. by apply (H sep).
  - intros H c Hin ->. done.
Qed.

Lemma split_app sep a b :
  split sep (a ++ sep :: b) = split sep a ++ split sep b.
Proof.
  induction a as [|c a IH]; simpl.
  - by rewrite N.eqb_refl.
  - destruct (c =? sep); [by rewrite IH|].
    rewrite IH. pose proof (split_nonempty sep a).
    by destruct (split sep a).
Qed.

Lemma segments_avoid_ext : forallb segment_avoids_ext lower_segments = true.
Proof. by vm_compute. Qed.

Lemma fold_char_ext c k :
  k ∈ ext_chars → fold_char c = k → c = k ∨ (c + 32 = k ∧ 65 ≤ c ≤ 90).
Proof.
  intros Hk. unfold fold_char.
  destruct ((65 <=? c) && (c <=? 90)) eqn:Hc; [|by left].
  apply andb_prop in Hc as [Hlo%N.leb_le Hhi%N.leb_le]. by right.
Qed.

Lemma ext_chars_cases k :
  k ∈ ext_chars →
  k = 46 ∨ k = 100 ∨ k = 101 ∨ k = 102 ∨ k = 103 ∨ k = 106 ∨ k = 110
  ∨ k = 112.
Proof.
  unfold ext_chars. rewrite !elem_of_cons, elem_of_nil. tauto.
Qed.

(** In lower case a code point is one of these characters only if it is
    that character or its ASCII capital. *)
Lemma to_lower_ext c k :
  k ∈ ext_chars → (to_lower c = k ↔ fold_char c = k).
Proof.
  intros Hk. split.
  - unfold to_lower.
    destruct (find (in_segment c) lower_segments)
      as [[[[lo hi] step] target]|] eqn:Hfind.
    + apply find_some in Hfind as [Hin Hseg].
      pose proof (proj1 (forallb_forall _ _) segments_avoid_ext _ Hin) as Hav.
      unfold in_segment in Hseg. unfold segment_avoids_ext in Hav.
      apply andb_prop in Hseg as [[Hlo%N.leb_le Hhi%N.leb_le]%andb_prop _].
      apply orb_prop in Hav as [Hascii|Hav].
      * apply bool_decide_eq_true in Hascii. injection Hascii as -> -> -> ->.
        intros <-. unfold fold_char.
        rewrite (proj2 (N.leb_le 65 c)), (proj2 (N.leb_le c 90)) by done.
        simpl. lia.
      * intros Hc.
        pose proof (proj1 (forallb_forall _ _) Hav k
                      (proj1 (list_elem_of_In _ _) Hk)) as Hout.
        apply orb_prop in Hout as [Hout%N.ltb_lt|Hout%N.ltb_lt]; lia.
    + intros ->. apply ext_chars_cases in Hk.
      destruct Hk as [->|[->|[->|[->|[->|[->|[->| ->]]]]]]]; done.
  - intros Hc. destruct (fold_char_ext c k Hk Hc) as [->|[<- Hcap]].
    + apply ext_chars_cases in Hk.
      destruct Hk as [->|[->|[->|[->|[->|[->|[->| ->]]]]]]]; by vm_compute.
    + apply ext_chars_cases in Hk.
      assert (c = 14 ∨ c = 68 ∨ c = 69 ∨ c = 70 ∨ c = 71 ∨ c = 74 ∨ c = 78
              ∨ c = 80) as Hcs by lia.
      destruct Hcs as [->|[->|[->|[->|[->|[->|[->| ->]]]]]]];
        [lia|by vm_compute..].
Qed.

Lemma lower_from_cons before c s :
  lower_from before (c :: s) = lower_at before c s ++ lower_from (c :: before) s.
Proof. done. Qed.

Lemma lower_at_ext before c after k :
  k ∈ ext_chars →
  k ∈ lower_at before c after →
  lower_at before c after = [k] ∧ fold_char c = k.
Proof.
  intros Hk. unfold lower_at, to_lower_full.
  destruct (N.eqb_spec c SIGMA) as [->|_].
  - intros Hin%list_elem_of_singleton. apply ext_chars_cases in Hk.
    destruct (final_sigma before after); lia.
  - destruct (N.eqb_spec c 304) as [->|_].
    + rewrite !elem_of_cons, elem_of_nil. apply ext_chars_cases in Hk. lia.
    + intros Hin%list_elem_of_singleton. subst k. split; [done|].
      by apply to_lower_ext.
Qed.

Lemma lower_at_fold before c after k :
  k ∈ ext_chars → fold_char c = k → lower_at before c after = [k].
Proof.
  intros Hk Hc. unfold lower_at, to_lower_full.
  assert (c ≠ SIGMA ∧ c ≠ 304) as [Hs Hi].
  { destruct (fold_char_ext c k Hk Hc) as [->|[<- Hcap]].
    - apply ext_chars_cases in Hk. unfold SIGMA. lia.
    - unfold SIGMA. lia. }
  rewrite (proj2 (N.eqb_neq _ _) Hs), (proj2 (N.eqb_neq _ _) Hi).
  f_equal. by apply to_lower_ext.
Qed.

(** A word over these characters is the lower case of exactly the words
    that are it up to ASCII capitals, whatever stands before. *)
Lemma lower_from_ext_word t :
  Forall (λ k, k ∈ ext_chars) t →
  ∀ before e, lower_from before e = t ↔ fold_ascii e = t.
Proof.
  intros Ht before e. revert before t Ht.
  induction e as [|c e IH]; intros before t Ht; [done|].
  rewrite lower_from_cons. unfold fold_ascii. rewrite fmap_cons.
  fold (fold_ascii e).
  destruct Ht as [|k t Hk Ht].
  - split; [|done]. intros Himg. apply app_eq_nil in Himg as [Himg _].
    unfold lower_at, to_lower_full in Himg. by repeat case_match.
  - split.
    + intros Himg.
      assert (k ∈ lower_at before c e) as Hin.
      { destruct (lower_at before c e) as [|x l] eqn:Hat.
        - unfold lower_at, to_lower_full in Hat. by repeat case_match.
        - injection Himg as -> _. by left. }
      destruct (lower_at_ext before c e k Hk Hin) as [Hat ->].
      rewrite Hat in Himg. injection Himg as Hrest.
      f_equal. by apply (IH (c :: before)).
    + intros [= Hc He]. rewrite (lower_at_fold before c e k Hk Hc).
      simpl. f_equal. by apply IH.
Qed.

Lemma lower_from_no_dot before s : DOT ∉ s → DOT ∉ lower_from before s.
Proof.
  revert before. induction s as [|c s IH]; intros before Hs; [done|].
  apply not_elem_of_cons in Hs as [Hc Hs].
  rewrite lower_from_cons, not_elem_of_app. split; [|by apply IH].
  intros Hin.
  assert (DOT ∈ ext_chars) as Hk by (by left).
  destruct (lower_at_ext before c s DOT Hk Hin) as [_ Hfold].
  destruct (fold_char_ext c DOT Hk Hfold) as [->|[? ?]]; [done|].
  unfold DOT in *. lia.
Qed.

Lemma lower_no_dot s : DOT ∉ s → DOT ∉ lower s.
Proof. apply lower_from_no_dot. Qed.

(** The lower case of a name with a dot: something, the dot, and the
    lower case of what follows the dot. *)
Lemma lower_from_dot before a b :
  ∃ pre,
    lower_from before (a ++ DOT :: b)
    = pre ++ DOT :: lower_from (DOT :: reverse a ++ before) b.
Proof.
  revert before. induction a as [|c a IH]; intros before.
  - exists []. simpl app. rewrite lower_from_cons.
    rewrite (lower_at_fold before DOT b DOT); [done|by left|done].
  - destruct (IH (c :: before)) as [pre Hpre].
    exists (lower_at before c (a ++ DOT :: b) ++ pre).
    change ((c :: a) ++ DOT :: b) with (c :: (a ++ DOT :: b)).
    rewrite lower_from_cons, Hpre, reverse_cons, <- !app_assoc. done.
Qed.

(** The extension is what follows the last dot of the lowered name. *)
Lemma file_ext_after_last_dot file pre ext :
  lower (name file) = pre ++ DOT :: ext → DOT ∉ ext → file_ext file = ext.
Proof.
  intros Hname Hext. unfold file_ext.
  rewrite Hname, split_app, (split_line DOT ext) by by apply Forall_not_elem.
  by rewrite last_snoc.
Qed.

(** Without a dot the extension is the whole lowered name. *)
Lemma file_ext_no_dot file :
  DOT ∉ name file → file_ext file = lower (name file).
Proof.
  intros Hname. unfold file_ext.
  by rewrite split_line by by apply Forall_not_elem, lower_no_dot.
Qed.

End Extension.

Lemma normalize_unsupported :
  normalize unsupported_file_type = unsupported_file_type.
Proof. by vm_compute. Qed.

(** C6.  A response without text does give the placeholder (see
    [text_of_response_no_text]), but the raw text can still be the empty
    string: the test for text comes before the strip, so a response that
    holds one blank passes it and is then stripped to nothing.  This is so
    for an image and for a PDF. *)
Theorem blank_response_gives_empty_text :
  let w := answering (Ok (Some (py " "))) in
  fst (transcribe w (upload "1.jpg") (initial ∅)) = Ok []
  ∧ fst (transcribe w (upload "2.pdf") (initial ∅)) = Ok [].
Proof. by vm_compute. Qed.

(** C8.  A file whose extension, in lower case, is none of jpg, jpeg, png
    and pdf has the raw text "[Unsupported file type]", stored as it is,
    and no remote call is made for it: the state after the transcription
    is the state before it, and the list of remote calls is still the same
    when the file has been processed. *)
Theorem unsupported_extension_no_remote_call
    (w : World) (file : UploadedFile) (s : State) :
  file_ext file ∉ [py "jpg"; py "jpeg"; py "png"; py "pdf"] →
  transcribe w file s = (Ok unsupported_file_type, s)
  ∧ remote_calls (snd (process_file w file s)) = remote_calls s
  ∧ ∃ rest,
      extracted_data (snd (process_file w file s))
      = extracted_data s
        ++ {| filename := name file; text := unsupported_file_type |} :: rest.
Proof.
  intros Hext.
  assert (transcribe w file s = (Ok unsupported_file_type, s)) as Hraw.
  { by apply transcribe_unsupported. }
  split; [done|]. rewrite process_file_run, Hraw. cbv beta iota zeta.
  rewrite normalize_unsupported.
  case_decide; simpl; (split; [done|by eexists]).
Qed.

Lemma unsupported_extension_witness :
  (file_ext (upload "notes.txt") ∉ [py "jpg"; py "jpeg"; py "png"; py "pdf"])
  ∧ transcribe (answering (Ok None)) (upload "notes.txt") (initial ∅)
    = (Ok (py "[Unsupported file type]"), initial ∅).
Proof.
  assert (file_ext (upload "notes.txt")
          ∉ [py "jpg"; py "jpeg"; py "png"; py "pdf"]) as Hext.
  { apply (bool_decide_unpack _). by vm_compute. }
  split; [exact Hext|].
  exact (proj1 (unsupported_extension_no_remote_call
                  (answering (Ok None)) (upload "notes.txt") (initial ∅) Hext)).
Defined.

(** C9.  For every PDF the temporary file is created under a name not in
    use and holds the bytes of the upload; the upload call is given that
    file; and whatever the upload and the model call do, succeed or raise,
    the temporary files after the transcription, and so when the next file
    begins, are those from before: the file is gone again. *)
Theorem pdf_temp_file_deleted (w : World) (file : UploadedFile) (s : State) :
  file_ext file = py "pdf" →
  let tmp_path := fresh (dom (tmp_files s)) in
  tmp_files s !! tmp_path = None
  ∧ named_temporary_file (content file) s
    = (Ok tmp_path,
       set_tmp_files (<[tmp_path := content file]> (tmp_files s)) s)
  ∧ (∃ calls,
       remote_calls (snd (transcribe w file s))
       = remote_calls s
         ++ CallUpload (Some (content file)) (name file) :: calls)
  ∧ tmp_files (snd (transcribe w file s)) = tmp_files s
  ∧ tmp_files (snd (process_file w file s)) = tmp_files s.
Proof.
  intros Hext tmp_path. split; [apply not_elem_of_dom, is_fresh|].
  split; [done|]. split; [|split].
  - rewrite transcribe_pdf_ext, transcribe_pdf_run by done. simpl.
    fold tmp_path.
    destruct (pdf_call_uploads w file tmp_path
                (set_tmp_files (<[tmp_path := content file]> (tmp_files s)) s))
      as [calls Hcalls].
    simpl in Hcalls. rewrite lookup_insert_eq in Hcalls. by exists calls.
  - apply transcribe_keeps.
  - apply process_file_tmp_files.
Qed.

Lemma pdf_temp_file_deleted_witness :
  file_ext (upload "2.pdf") = py "pdf"
  ∧ tmp_files (snd (process_file (failing_upload (py "503 unavailable"))
                      (upload "2.pdf") (initial ∅))) = ∅.
Proof.
  assert (file_ext (upload "2.pdf") = py "pdf") as Hext by by vm_compute.
  split; [exact Hext|].
  exact (proj2 (proj2 (proj2 (proj2
    (pdf_temp_file_deleted (failing_upload (py "503 unavailable"))
       (upload "2.pdf") (initial ∅) Hext))))).
Defined.

(** C10.  The kind of a file is decided by what follows the last dot of
    its lowered name and by nothing else, and for a name without a dot
    that is the whole lowered name.  Such a file is unsupported, with the
    placeholder as raw text and no remote call, when that name is none of
    jpg, jpeg, png and pdf; a file that is called just so is processed as
    an image or as a PDF. *)
Theorem no_dot_name_is_its_extension
    (w : World) (file : UploadedFile) (s : State) :
  (∀ pre ext,
     lower (name file) = pre ++ DOT :: ext → DOT ∉ ext → file_ext file = ext)
  ∧ transcribe w file s
    = (if decide (file_ext file ∈ [py "jpg"; py "jpeg"; py "png"])
       then transcribe_image w file s
       else if decide (file_ext file = py "pdf")
            then transcribe_pdf w file s
            else (Ok unsupported_file_type, s))
  ∧ (DOT ∉ name file →
     file_ext file = lower (name file)
     ∧ (lower (name file) ∉ [py "jpg"; py "jpeg"; py "png"; py "pdf"] →
        transcribe w file s = (Ok unsupported_file_type, s))
     ∧ (lower (name file) ∈ [py "jpg"; py "jpeg"; py "png"] →
        transcribe w file s = transcribe_image w file s)
     ∧ (lower (name file) = py "pdf" →
        transcribe w file s = transcribe_pdf w file s)).
Proof.
  split; [apply file_ext_after_last_dot|]. split.
  { unfold transcribe. by repeat case_decide. }
  intros Hname. pose proof (file_ext_no_dot file Hname) as Hext.
  split; [done|]. split; [|split]; intros Hkind.
  - apply transcribe_unsupported. by rewrite Hext.
  - unfold transcribe. by rewrite Hext, decide_True.
  - rewrite transcribe_pdf_ext; [done|]. by rewrite Hext.
Qed.

Lemma no_dot_name_witness :
  lower (name (upload "Scan.v2.PDF")) = py "scan.v2" ++ DOT :: py "pdf"
  ∧ (DOT ∉ py "pdf")
  ∧ file_ext (upload "Scan.v2.PDF") = py "pdf"
  ∧ (DOT ∉ name (upload "README"))
  ∧ file_ext (upload "README") = py "readme"
  ∧ transcribe (answering (Ok None)) (upload "README") (initial ∅)
    = (Ok (py "[Unsupported file type]"), initial ∅).
Proof.
  assert (lower (name (upload "Scan.v2.PDF"))
          = py "scan.v2" ++ DOT :: py "pdf") as Hlow by by vm_compute.
  assert (DOT ∉ py "pdf") as Hext.
  { apply (bool_decide_unpack _). by vm_compute. }
  assert (DOT ∉ name (upload "README")) as Hname.
  { apply (bool_decide_unpack _). by vm_compute. }
  split; [exact Hlow|]. split; [exact Hext|]. split.
  { exact (proj1 (no_dot_name_is_its_extension (answering (Ok None))
                    (upload "Scan.v2.PDF") (initial ∅))
             (py "scan.v2") (py "pdf") Hlow Hext). }
  destruct (proj2 (proj2 (no_dot_name_is_its_extension
                            (answering (Ok None)) (upload "README")
                            (initial ∅))) Hname)
    as (Hreadme & Hunsupported & _).
  split; [exact Hname|]. split; [exact Hreadme|].
  apply Hunsupported. apply (bool_decide_unpack _). by vm_compute.
Defined.

(** A file that is called [pdf], without a dot, is not unsupported: it
    is uploaded and the model is called. *)
Lemma no_dot_pdf_is_processed :
  let file := upload "pdf" in
  let w := answering (Ok (Some (py "Apage"))) in
  (DOT ∉ name file)
  ∧ fst (transcribe w file (initial ∅)) = Ok (py "Apage")
  ∧ fst (transcribe w file (initial ∅)) ≠ Ok unsupported_file_type
  ∧ length (remote_calls (snd (transcribe w file (initial ∅)))) = 2%nat.
Proof.
  split; [apply (bool_decide_unpack _); by vm_compute|].
  split; [by vm_compute|]. split; [by vm_compute|by vm_compute].
Qed.

(** * More about the code *)

(** ** Normalisation, line by line *)

Section NormalizeMore.

(** [sep.join(s.split(sep))] is [s] again. *)
Lemma join_split sep s : join [sep] (split sep s) = s.
Proof.
  induction s as [|c s IH]; simpl; [done|].
  pose proof (split_nonempty sep s) as Hne.
  destruct (N.eqb_spec c sep) as [->|Hc].
  - destruct (split sep s) as [|l ls]; [done|]. simpl in *. by rewrite IH.
  - destruct (split sep s) as [|l ls]; [done|].
    destruct ls; simpl in *; by rewrite <- IH.
Qed.

Lemma lstrip_decompose s :
  ∃ pre, s = pre ++ lstrip s ∧ Forall (λ c, is_space c = true) pre.
Proof.
  induction s as [|c s (pre & Hs & Hpre)]; simpl; [by exists []|].
  destruct (is_space c) eqn:Hc.
  - exists (c :: pre). split; [simpl; by f_equal|by constructor].
  - by exists [].
Qed.

Lemma rstrip_decompose s :
  ∃ post, s = rstrip s ++ post ∧ Forall (λ c, is_space c = true) post.
Proof.
  induction s as [|c s (post & Hs & Hpost)]; simpl; [by exists []|].
  destruct (rstrip s) as [|r rs].
  - destruct (is_space c) eqn:Hc.
    + exists (c :: post). split; [simpl in *; by f_equal|by constructor].
    + exists post. split; [simpl in *; by f_equal|done].
  - exists post. split; [simpl in *; by f_equal|done].
Qed.

Lemma rstrip_last s c : last (rstrip s) = Some c → is_space c = false.
Proof.
  induction s as [|d s IH]; simpl; [done|].
  destruct (rstrip s) as [|r rs].
  - destruct (is_space d) eqn:Hd; simpl; [done|]. by intros [= <-].
  - rewrite last_cons_cons. apply IH.
Qed.

Lemma strip_head s c : head (strip s) = Some c → is_space c = false.
Proof.
  unfold strip. destruct (lstrip_head s) as [->|(d & t & -> & Hd)]; [done|].
  rewrite rstrip_cons_keep by done. simpl. by intros [= <-].
Qed.

(** What [strip] does to a line: it takes whitespace off both ends, and
    nothing else, until neither end is whitespace. *)
Lemma strip_decompose s :
  ∃ pre post,
    s = pre ++ strip s ++ post
    ∧ Forall (λ c, is_space c = true) pre
    ∧ Forall (λ c, is_space c = true) post
    ∧ (∀ c, head (strip s) = Some c → is_space c = false)
    ∧ (∀ c, last (strip s) = Some c → is_space c = false).
Proof.
  destruct (lstrip_decompose s) as (pre & Hs & Hpre).
  destruct (rstrip_decompose (lstrip s)) as (post & Hl & Hpost).
  exists pre, post. split; [|split; [done|split; [done|split]]].
  - unfold strip. by rewrite <- Hl.
  - apply strip_head.
  - apply rstrip_last.
Qed.

Lemma filter_lstrip s :
  filter (λ c, is_space c = false) (lstrip s)
  = filter (λ c, is_space c = false) s.
Proof.
  induction s as [|c s IH]; simpl; [done|].
  destruct (is_space c) eqn:Hc; [|done].
  by rewrite filter_cons, decide_False by by rewrite Hc.
Qed.

Lemma filter_rstrip s :
  filter (λ c, is_space c = false) (rstrip s)
  = filter (λ c, is_space c = false) s.
Proof.
  induction s as [|c s IH]; simpl; [done|].
  rewrite (filter_cons _ c s), <- IH.
  destruct (rstrip s) as [|r rs].
  - destruct (is_space c) eqn:Hc.
    + by rewrite decide_False by done.
    + rewrite decide_True by done. rewrite filter_cons, decide_True by done.
      done.
  - by rewrite (filter_cons _ c (r :: rs)).
Qed.

Lemma filter_join ls :
  filter (λ c, is_space c = false) (join [LF] ls)
  = concat (filter (λ c, is_space c = false) <$> ls).
Proof.
  induction ls as [|l ls IH]; [done|].
  destruct ls as [|l' ls].
  - simpl. by rewrite app_nil_r.
  - change (join [LF] (l :: l' :: ls))
      with (l ++ LF :: join [LF] (l' :: ls)).
    rewrite filter_app, filter_cons, decide_False by done.
    by rewrite IH.
Qed.

Lemma filter_split s :
  concat (filter (λ c, is_space c = false) <$> split LF s)
  = filter (λ c, is_space c = false) s.
Proof.
  induction s as [|c s IH]; [done|].
  change (split LF (c :: s))
    with (if c =? LF then [] :: split LF s
          else match split LF s with
               | [] => [[c]]
               | l :: ls => (c :: l) :: ls
               end).
  rewrite filter_cons. destruct (N.eqb_spec c LF) as [->|Hc].
  - rewrite decide_False by done. by rewrite fmap_cons, concat_cons, <- IH.
  - destruct (split LF s) as [|l ls] eqn:E; [by apply split_nonempty in E|].
    rewrite fmap_cons, concat_cons in *. rewrite filter_cons, <- IH.
    by case_decide.
Qed.

Lemma fmap_fixed {A} (f : A → A) (l : list A) :
  f <$> l = l ↔ Forall (λ x, f x = x) l.
Proof.
  induction l as [|x l IH]; simpl; [by split|].
  split.
  - intros [= Hx Hl]. constructor; [done|by apply IH].
  - inversion_clear 1 as [|? ? Hx Hl]. rewrite Hx. f_equal. by apply IH.
Qed.

Lemma normalize_filter_nonspace s :
  filter (λ c, is_space c = false) (normalize s)
  = filter (λ c, is_space c = false) s.
Proof.
  rewrite normalize_eq, filter_join, <- list_fmap_compose.
  rewrite <- (filter_split s). f_equal. apply list_fmap_ext.
  intros _ l _. simpl. unfold strip. by rewrite filter_rstrip, filter_lstrip.
Qed.

End NormalizeMore.

(** X1.  The normalisation removes whitespace and nothing else: the
    characters of the normalised text that are not whitespace are those of
    the raw text, in the same order. *)
Theorem normalize_keeps_visible_characters (s : str) :
  filter (λ c, is_space c = false) (normalize s)
  = filter (λ c, is_space c = false) s.
Proof. apply normalize_filter_nonspace. Qed.

(** X2.  The normalised text has the lines of the raw text, as many and in
    the same order, each without the whitespace at its two ends: a raw
    line is its stored line between two runs of whitespace, and a stored
    line neither begins nor ends with whitespace. *)
Theorem normalize_line_by_line (s : str) :
  split LF (normalize s) = strip <$> split LF s
  ∧ length (split LF (normalize s)) = length (split LF s)
  ∧ Forall2
      (λ raw stored,
         ∃ pre post,
           raw = pre ++ stored ++ post
           ∧ Forall (λ c, is_space c = true) pre
           ∧ Forall (λ c, is_space c = true) post
           ∧ (∀ c, head stored = Some c → is_space c = false)
           ∧ (∀ c, last stored = Some c → is_space c = false))
      (split LF s) (split LF (normalize s)).
Proof.
  rewrite split_normalize. split; [done|]. split; [by rewrite length_fmap|].
  apply Forall2_fmap_r, Forall_Forall2_diag, Forall_forall.
  intros l _. apply strip_decompose.
Qed.

(** X3.  A text is stored as it is exactly when none of its lines begins
    or ends with whitespace, that is when stripping changes none of its
    lines. *)
Theorem normalize_fixed_iff (s : str) :
  normalize s = s ↔ Forall (λ l, strip l = l) (split LF s).
Proof.
  rewrite <- fmap_fixed. split.
  - intros Hs. rewrite <- split_normalize. by rewrite Hs.
  - intros Hlines. by rewrite normalize_eq, Hlines, join_split.
Qed.

(** ** The order of processing and its display *)

Section Order.

Context {A : Type} (key : A → sort_key).

(** A list that is in order is left as it is. *)
Lemma sorted_of_sorted l :
  StronglySorted (λ x y, key_le (key x) (key y)) l → sorted key l = l.
Proof.
  induction 1 as [|x l Hl IH Hx]; simpl; [done|].
  rewrite IH. destruct Hx as [|y l Hy _]; simpl; [done|].
  unfold key_le in Hy. by rewrite Hy.
Qed.


End Order.

Section Display.












End Display.

(** X4.  The order of the uploads is changed only if it has to be: the
    sorted list is the uploaded list exactly when the uploads already
    come with non-decreasing numbers.  So sorting again changes nothing. *)
Theorem sorted_fixed_iff_in_order (uploaded_files : list UploadedFile) :
  (sorted extract_number uploaded_files = uploaded_files ↔
   StronglySorted (λ f g, key_le (extract_number f) (extract_number g))
                  uploaded_files)
  ∧ sorted extract_number (sorted extract_number uploaded_files)
    = sorted extract_number uploaded_files.
Proof.
  split; [split|].
  - intros <-. apply sorted_sorted.
  - apply sorted_of_sorted.
  - apply sorted_of_sorted, sorted_sorted.
Qed.



(** ** What a batch stores and whom it calls *)

Section BatchMore.

Context (w : World).

(** The remote calls of the image branch: none when the image cannot be
    opened, otherwise the one call of the model. *)
Lemma transcribe_image_calls file s :
  remote_calls (snd (transcribe_image w file s))
  = remote_calls s
    ++ match image_open w (content file) with
       | Ok img => [CallGenerate [PText prompt_image; PImage img]]
       | Raise _ => []
       end.
Proof.
  unfold transcribe_image, open_image, model_generate_content. unfold_M.
  destruct (image_open w (content file)); simpl; [|by rewrite app_nil_r].
  destruct (generate_content w _ _) as [r|]; simpl; [|done].
  by after_text_of_response r.
Qed.

(** The remote calls of [pdf_call]: the upload and, if that went well,
    the one call of the model. *)
Lemma pdf_call_calls file tmp_path s :
  remote_calls (snd (pdf_call w file tmp_path s))
  = remote_calls s
    ++ CallUpload (tmp_files s !! tmp_path) (name file)
       :: match upload_file w (length (remote_calls s))
                  (tmp_files s !! tmp_path) (name file) with
          | Ok h => [CallGenerate [PText prompt_pdf; PFile h]]
          | Raise _ => []
          end.
Proof.
  unfold pdf_call, genai_upload_file, model_generate_content. unfold_M.
  destruct (upload_file w _ _ _); simpl; [|done].
  destruct (generate_content w _ _) as [r|]; simpl.
  - after_text_of_response r. simpl. by rewrite <- app_assoc.
  - by rewrite <- app_assoc.
Qed.

Lemma transcribe_pdf_calls file s :
  remote_calls (snd (transcribe_pdf w file s))
  = remote_calls s
    ++ CallUpload (Some (content file)) (name file)
       :: match upload_file w (length (remote_calls s))
                  (Some (content file)) (name file) with
          | Ok h => [CallGenerate [PText prompt_pdf; PFile h]]
          | Raise _ => []
          end.
Proof.
  rewrite transcribe_pdf_run. simpl. rewrite pdf_call_calls. simpl.
  by rewrite lookup_insert_eq.
Qed.

Lemma transcribe_calls file s :
  ∃ calls,
    remote_calls (snd (transcribe w file s)) = remote_calls s ++ calls
    ∧ (length calls ≤ call_budget file)%nat.
Proof.
  unfold transcribe, call_budget. repeat case_decide.
  - rewrite transcribe_image_calls. eexists. split; [done|].
    destruct (image_open w (content file)); simpl; lia.
  - rewrite transcribe_pdf_calls. eexists. split; [done|].
    destruct (upload_file w _ _ _); simpl; lia.
  - exists []. by rewrite app_nil_r.
Qed.

Lemma process_file_remote_calls file s :
  remote_calls (snd (process_file w file s))
  = remote_calls (snd (transcribe w file s)).
Proof.
  rewrite process_file_run.
  destruct (transcribe w file s) as [[t|e] s1]; simpl; [|done].
  by case_decide.
Qed.

Lemma for_each_calls files s :
  ∃ calls,
    remote_calls (snd (for_each files (process_file w) s))
    = remote_calls s ++ calls
    ∧ (length calls ≤ sum_list_with call_budget files)%nat.
Proof.
  revert s. induction files as [|file files IH]; intros s.
  - exists []. by rewrite app_nil_r.
  - rewrite for_each_cons.
    destruct (IH (snd (process_file w file s))) as (calls2 & -> & Hlen2).
    rewrite process_file_remote_calls.
    destruct (transcribe_calls file s) as (calls1 & -> & Hlen1).
    exists (calls1 ++ calls2). rewrite <- app_assoc. split; [done|].
    rewrite length_app. simpl. lia.
Qed.

(** The entries of a batch, file by file. *)
Lemma for_each_blocks files s :
  ∃ blocks,
    extracted_data (snd (for_each files (process_file w) s))
    = extracted_data s ++ concat blocks
    ∧ Forall2 (λ f b, Forall (λ it, filename it = name f) b
                      ∧ (length b = 1 ∨ length b = 2)%nat)
              files blocks.
Proof.
  revert s. induction files as [|file files IH]; intros s.
  - exists []. by rewrite app_nil_r.
  - rewrite for_each_cons.
    destruct (process_file_entries w file s) as (b & Hb & Hnames & Hlen).
    destruct (IH (snd (process_file w file s))) as (bs & -> & Hbs).
    exists (b :: bs). split; [|by constructor].
    by rewrite Hb, <- app_assoc.
Qed.

Lemma for_each_names files s :
  NoDup (name <$> files) →
  (∀ file, file ∈ files → py "text_" ++ name file ∉ widget_keys s) →
  filename <$> extracted_data (snd (for_each files (process_file w) s))
  = (filename <$> extracted_data s) ++ (name <$> files).
Proof.
  revert s. induction files as [|file files IH]; intros s Hnd Hkeys.
  - by rewrite app_nil_r.
  - rewrite for_each_cons. rewrite fmap_cons in Hnd.
    apply NoDup_cons in Hnd as [Hfile Hnd].
    destruct (process_file_fresh_key w file s) as (it & Hdata & Hsub).
    { apply Hkeys. by left. }
    destruct (process_file_entries w file s) as (new & Hnew & Hnames & _).
    rewrite Hdata in Hnew. apply app_inv_head in Hnew. subst new.
    inversion_clear Hnames as [|? ? Hit _].
    rewrite IH; [| done |].
    + rewrite Hdata, fmap_app, <- app_assoc. simpl. by rewrite Hit.
    + intros file' Hin Hbad. apply Hsub in Hbad.
      apply elem_of_union in Hbad as [Hbad|Hbad].
      * apply elem_of_singleton in Hbad. apply app_inv_head in Hbad.
        apply Hfile. rewrite <- Hbad. by apply list_elem_of_fmap_2.
      * revert Hbad. apply Hkeys. by right.
Qed.

End BatchMore.

Section Blocks.

(** Files in order, each with a block of entries under its name: the
    entries are in order as well. *)
Lemma blocks_names files (blocks : list (list item)) it :
  Forall2 (λ f b, Forall (λ it, filename it = name f) b
                  ∧ (length b = 1 ∨ length b = 2)%nat) files blocks →
  it ∈ concat blocks → ∃ f, f ∈ files ∧ filename it = name f.
Proof.
  induction 1 as [|f b files blocks [Hb _] _ IH]; simpl.
  - by intros ?%elem_of_nil.
  - intros [Hin|Hin]%elem_of_app.
    + exists f. split; [by left|]. by apply (proj1 (Forall_forall _ _) Hb).
    + destruct (IH Hin) as (f' & Hf' & Hname). exists f'. by split; [right|].
Qed.

Lemma blocks_cover files (blocks : list (list item)) f :
  Forall2 (λ f b, Forall (λ it, filename it = name f) b
                  ∧ (length b = 1 ∨ length b = 2)%nat) files blocks →
  f ∈ files → ∃ it, it ∈ concat blocks ∧ filename it = name f.
Proof.
  induction 1 as [|f' b files blocks [Hb Hlen] _ IH]; simpl.
  - by intros ?%elem_of_nil.
  - intros [->|Hin]%elem_of_cons.
    + destruct b as [|it b]; [simpl in Hlen; lia|].
      exists it. split; [apply elem_of_app; left; by left|].
      by inversion_clear Hb.
    + destruct (IH Hin) as (it & Hit & Hname).
      exists it. split; [|done]. apply elem_of_app. by right.
Qed.

Lemma blocks_length files (blocks : list (list item)) :
  Forall2 (λ f b, Forall (λ it, filename it = name f) b
                  ∧ (length b = 1 ∨ length b = 2)%nat) files blocks →
  (length files ≤ length (concat blocks) ≤ 2 * length files)%nat.
Proof.
  induction 1 as [|f b files blocks [_ Hlen] _ IH]; simpl; [lia|].
  rewrite length_app. lia.
Qed.

Lemma extract_number_number_of f : extract_number f = number_of (name f).
Proof. done. Qed.

Lemma blocks_sorted files (blocks : list (list item)) :
  StronglySorted (λ f g, key_le (extract_number f) (extract_number g)) files →
  Forall2 (λ f b, Forall (λ it, filename it = name f) b
                  ∧ (length b = 1 ∨ length b = 2)%nat) files blocks →
  StronglySorted (λ a b, key_le (number_of (filename a))
                                (number_of (filename b)))
                 (concat blocks).
Proof.
  intros Hsorted Hblocks. revert Hsorted.
  induction Hblocks as [|f b files blocks [Hb _] Hrest IH]; simpl.
  - constructor.
  - intros [Hf Hfiles]%StronglySorted_cons.
    apply StronglySorted_app. split; [|split; [|by apply IH]].
    + intros x1 x2 Hx1 Hx2.
      rewrite (proj1 (Forall_forall _ _) Hb x1 Hx1).
      destruct (blocks_names _ _ _ Hrest Hx2) as (g & Hg & ->).
      rewrite <- !extract_number_number_of.
      by apply (proj1 (Forall_forall _ _) Hf).
    + clear -Hb. induction Hb as [|x b Hx Hb IH]; constructor; [done|].
      eapply Forall_impl; [exact Hb|]. intros y Hy. simpl in *.
      rewrite Hx, Hy. apply key_le_refl.
Qed.

End Blocks.

(** X6.  The entries of a batch lie in the order of processing: their
    file names have non-decreasing numbers.  Every entry bears the name of
    an upload and every upload has an entry, and there are at least as
    many entries as uploads and at most twice as many. *)
Theorem results_follow_processing_order
    (w : World) (uploaded_files : list UploadedFile) (s : State) :
  let data := extracted_data (snd (run_batch w uploaded_files s)) in
  StronglySorted (λ a b, key_le (number_of (filename a))
                                (number_of (filename b))) data
  ∧ (∀ it, it ∈ data → ∃ f, f ∈ uploaded_files ∧ filename it = name f)
  ∧ (∀ f, f ∈ uploaded_files → ∃ it, it ∈ data ∧ filename it = name f)
  ∧ (length uploaded_files ≤ length data ≤ 2 * length uploaded_files)%nat.
Proof.
  unfold run_batch, clear. unfold_M.
  destruct (for_each_blocks w (sorted extract_number uploaded_files)
              (set_extracted_data [] s)) as (blocks & -> & Hblocks).
  simpl. split; [|split; [|split]].
  - eapply blocks_sorted; [apply sorted_sorted|done].
  - intros it Hit. destruct (blocks_names _ _ _ Hblocks Hit) as (f & Hf & ?).
    exists f. split; [|done]. by rewrite <- (sorted_perm extract_number).
  - intros f Hf. apply (blocks_cover _ _ _ Hblocks).
    by rewrite (sorted_perm extract_number).
  - rewrite <- (Permutation_length (sorted_perm extract_number uploaded_files)).
    by apply blocks_length.
Qed.

Lemma results_follow_order_witness :
  upload "1.pdf" ∈ [upload "2.jpg"; upload "1.pdf"]
  ∧ ∃ it,
      it ∈ extracted_data
             (snd (run_batch by_kind [upload "2.jpg"; upload "1.pdf"]
                     (initial ∅)))
      ∧ filename it = py "1.pdf".
Proof.
  assert (upload "1.pdf" ∈ [upload "2.jpg"; upload "1.pdf"]) as Hin
    by (right; left).
  split; [exact Hin|].
  exact (proj1 (proj2 (proj2 (results_follow_processing_order by_kind
                                [upload "2.jpg"; upload "1.pdf"] (initial ∅))))
           (upload "1.pdf") Hin).
Defined.

(** X7.  When the uploads have pairwise different names, and none of
    their text-area keys is taken, the file names of the entries are the
    names of the uploads in the order of processing, one entry each. *)
Theorem results_are_sorted_names
    (w : World) (uploaded_files : list UploadedFile) (s : State) :
  NoDup (name <$> uploaded_files) →
  (∀ file, file ∈ uploaded_files →
           py "text_" ++ name file ∉ widget_keys s) →
  filename <$> extracted_data (snd (run_batch w uploaded_files s))
  = name <$> sorted extract_number uploaded_files.
Proof.
  intros Hnd Hkeys. unfold run_batch, clear. unfold_M.
  rewrite for_each_names; simpl; [done| |].
  - by rewrite sorted_perm.
  - intros file Hin. apply Hkeys. by rewrite <- (sorted_perm extract_number).
Qed.

Lemma results_are_sorted_names_witness :
  NoDup (name <$> [upload "2.jpg"; upload "1.pdf"])
  ∧ filename <$> extracted_data
      (snd (run_batch by_kind [upload "2.jpg"; upload "1.pdf"] (initial ∅)))
    = [py "1.pdf"; py "2.jpg"].
Proof.
  assert (NoDup (name <$> [upload "2.jpg"; upload "1.pdf"])) as Hnd.
  { apply (bool_decide_unpack _). by vm_compute. }
  split; [exact Hnd|].
  apply (results_are_sorted_names by_kind [upload "2.jpg"; upload "1.pdf"]
           (initial ∅) Hnd).
  intros file _. apply not_elem_of_empty.
Defined.

(** X8.  A batch makes no more remote calls than one for each image and
    two for each PDF, and none for any other file. *)
Theorem remote_calls_within_budget
    (w : World) (uploaded_files : list UploadedFile) (s : State) :
  ∃ calls,
    remote_calls (snd (run_batch w uploaded_files s))
    = remote_calls s ++ calls
    ∧ (length calls ≤ sum_list_with call_budget uploaded_files)%nat
    ∧ (sum_list_with call_budget uploaded_files
       ≤ 2 * length uploaded_files)%nat.
Proof.
  unfold run_batch, clear. unfold_M.
  destruct (for_each_calls w (sorted extract_number uploaded_files)
              (set_extracted_data [] s)) as (calls & -> & Hlen).
  exists calls. split; [done|]. split.
  - by rewrite <- (sorted_perm extract_number uploaded_files).
  - clear. induction uploaded_files as [|f l IH]; simpl; [lia|].
    unfold call_budget at 1. repeat case_decide; lia.
Qed.

(** X9.  An image that cannot be opened is not sent to the model: the
    file is processed without any remote call, and all that changes is
    the one entry with the message of the decoder. *)
Theorem unreadable_image_is_not_sent
    (w : World) (file : UploadedFile) (s : State) (e : str) :
  file_ext file ∈ image_exts →
  image_open w (content file) = Raise e →
  process_file w file s
  = (Ok (),
     set_extracted_data
       (extracted_data s
        ++ [{| filename := name file; text := unexpected_error e |}])
       s).
Proof.
  intros Hext Himg. rewrite process_file_run.
  unfold transcribe. rewrite decide_True by done.
  unfold transcribe_image, open_image. unfold_M. by rewrite Himg.
Qed.

Lemma unreadable_image_witness :
  file_ext (upload "1.jpg") ∈ image_exts
  ∧ remote_calls
      (snd (process_file (failing_image (py "cannot identify image file"))
              (upload "1.jpg") (initial ∅)))
    = [].
Proof.
  assert (file_ext (upload "1.jpg") ∈ image_exts) as Hext.
  { apply (bool_decide_unpack _). by vm_compute. }
  split; [exact Hext|].
  by rewrite (unreadable_image_is_not_sent
                (failing_image (py "cannot identify image file"))
                (upload "1.jpg") (initial ∅)
                (py "cannot identify image file") Hext eq_refl).
Defined.

(** ** Document Assembler *)

Section Runs.

Lemma forallb_Forall {A} (f : A → bool) l :
  forallb f l = true ↔ Forall (λ x, f x = true) l.
Proof.
  induction l as [|x l IH]; simpl; [by split|].
  rewrite andb_true_iff, IH. split.
  - intros [??]. by constructor.
  - by inversion 1.
Qed.

Lemma flush_is_Some bfr :
  is_Some (flush bfr) ↔ Forall (λ c, xml_compatible c = true) bfr.
Proof.
  destruct bfr as [|c bfr]; [by split|].
  rewrite <- forallb_Forall. unfold flush.
  destruct (forallb xml_compatible (c :: bfr)); split; try done.
Qed.


Lemma bind2_is_Some {A B C} (m1 : option A) (m2 : option B) (f : A → B → C) :
  is_Some (x ← m1; y ← m2; Some (f x y)) ↔ is_Some m1 ∧ is_Some m2.
Proof.
  destruct m1, m2; simpl; split; try done; intros [[? ?] [? ?]]; done.
Qed.

Lemma bind1_is_Some {A B} (m : option A) (f : A → B) :
  is_Some (x ← m; Some (f x)) ↔ is_Some m.
Proof. destruct m; simpl; split; done. Qed.

(** A run can be written exactly when the library takes all of its
    characters. *)
Lemma append_to_run_is_Some bfr text :
  is_Some (append_to_run bfr text)
  ↔ Forall (λ c, xml_compatible c = true) bfr
    ∧ Forall (λ c, xml_compatible c = true) text.
Proof.
  assert (Forall (λ c, xml_compatible c = true) []) as Hnil by constructor.
  revert bfr. induction text as [|c text IH]; intros bfr.
  - simpl. rewrite flush_is_Some. tauto.
  - simpl. destruct (N.eqb_spec c 9) as [->|Htab].
    { rewrite bind2_is_Some, flush_is_Some, IH, Forall_cons.
      assert (xml_compatible 9 = true) by done. tauto. }
    destruct ((c =? 13) || (c =? 10)) eqn:Hbr.
    { rewrite bind2_is_Some, flush_is_Some, IH, Forall_cons.
      assert (xml_compatible c = true).
      { apply orb_prop in Hbr as [->%N.eqb_eq| ->%N.eqb_eq]; done. }
      tauto. }
    rewrite IH, Forall_app, !Forall_cons. tauto.
Qed.

Lemma add_run_is_Some text :
  is_Some (add_run text) ↔ Forall (λ c, xml_compatible c = true) text.
Proof.
  unfold add_run. rewrite append_to_run_is_Some.
  assert (Forall (λ c, xml_compatible c = true) []) by constructor. tauto.
Qed.

Lemma flush_text bfr content :
  flush bfr = Some content → concat (inline_text <$> content) = bfr.
Proof.
  destruct bfr as [|c bfr]; simpl; [by intros [= <-]|].
  case_match; [|done]. intros [= <-]. simpl. by rewrite app_nil_r.
Qed.

(** Read back, a run gives its text again, but for the carriage returns,
    which have become line breaks like the line feeds. *)
Lemma append_to_run_text bfr text content :
  append_to_run bfr text = Some content →
  concat (inline_text <$> content) = bfr ++ breaks_as_lf text.
Proof.
  revert bfr content. induction text as [|c text IH]; intros bfr content.
  - simpl. rewrite app_nil_r. apply flush_text.
  - simpl. destruct (N.eqb_spec c 9) as [->|Htab].
    { intros (before & Hb & (after & Ha & [= <-])%bind_Some)%bind_Some.
      by rewrite fmap_app, concat_app, (flush_text _ _ Hb), fmap_cons,
        concat_cons, (IH _ _ Ha). }
    destruct ((c =? 13) || (c =? 10)) eqn:Hbr.
    { intros (before & Hb & (after & Ha & [= <-])%bind_Some)%bind_Some.
      rewrite fmap_app, concat_app, (flush_text _ _ Hb), fmap_cons,
        concat_cons, (IH _ _ Ha).
      apply orb_prop in Hbr as [->%N.eqb_eq| ->%N.eqb_eq]; done. }
    intros Hrest. rewrite (IH _ _ Hrest), <- app_assoc. simpl.
    apply orb_false_elim in Hbr as [Hcr _]. by rewrite Hcr.
Qed.

Lemma add_run_text text content :
  add_run text = Some content →
  concat (inline_text <$> content) = breaks_as_lf text.
Proof. apply append_to_run_text. Qed.


Lemma breaks_as_lf_plain s : 13 ∉ s → breaks_as_lf s = s.
Proof.
  induction s as [|c s IH]; [done|].
  intros [Hc Hs]%not_elem_of_cons. unfold breaks_as_lf in *.
  rewrite fmap_cons, IH by done.
  by rewrite (proj2 (N.eqb_neq c 13)) by done.
Qed.

End Runs.

Section Assembler.

Lemma split_Forall (P : N → Prop) sep s :
  P sep → (Forall (Forall P) (split sep s) ↔ Forall P s).
Proof.
  intros Hsep. induction s as [|c s IH]; simpl.
  - split; [done|]. by repeat constructor.
  - pose proof (split_nonempty sep s) as Hne.
    destruct (N.eqb_spec c sep) as [->|Hc].
    + rewrite !Forall_cons, IH.
      assert (Forall P []) by constructor. tauto.
    + destruct (split sep s) as [|l ls]; [done|].
      rewrite !Forall_cons in *. tauto.
Qed.

Lemma source_header_is_Some it :
  is_Some (source_header it)
  ↔ Forall (λ c, xml_compatible c = true) (filename it).
Proof.
  unfold source_header.
  rewrite bind1_is_Some, add_run_is_Some, Forall_app. split; [by intros [_ ?]|].
  intros Hname. split; [|done].
  apply forallb_Forall. by vm_compute.
Qed.

Lemma line_paragraph_is_Some line :
  is_Some (line_paragraph line)
  ↔ Forall (λ c, xml_compatible c = true) line.
Proof.
  unfold line_paragraph. rewrite bind1_is_Some. apply add_run_is_Some.
Qed.

Lemma item_blocks_is_Some it : is_Some (item_blocks it) ↔ xml_clean it.
Proof.
  unfold item_blocks, xml_clean.
  rewrite bind2_is_Some, source_header_is_Some, mapM_is_Some.
  rewrite <- (split_Forall (λ c, xml_compatible c = true) LF (text it)) by done.
  apply and_iff_compat_l, Forall_iff. intros line. simpl.
  apply line_paragraph_is_Some.
Qed.

(** The loops of the assembly, seen entry by entry. *)
Lemma add_lines_mapM doc lines :
  add_lines doc lines
  = paras ← mapM line_paragraph lines; Some (doc ++ paras).
Proof.
  revert doc. induction lines as [|line lines IH]; intros doc; simpl.
  - by rewrite app_nil_r.
  - destruct (line_paragraph line) as [para|]; simpl; [|done].
    rewrite IH. destruct (mapM line_paragraph lines); simpl; [|done].
    by rewrite <- app_assoc.
Qed.

Lemma add_paragraph_rule : add_paragraph rule = Some separator.
Proof. by vm_compute. Qed.

Lemma add_item_blocks doc it :
  add_item doc it = blocks ← item_blocks it; Some (doc ++ blocks).
Proof.
  unfold add_item, item_blocks.
  destruct (source_header it) as [header|]; [|done].
  cbn [mbind option_bind]. rewrite add_lines_mapM.
  destruct (mapM line_paragraph (split LF (text it))); [|done].
  cbn [mbind option_bind]. rewrite add_paragraph_rule.
  cbn [mbind option_bind]. by rewrite <- !app_assoc.
Qed.

Lemma add_items_mapM doc data :
  add_items doc data
  = blocks ← mapM item_blocks data; Some (doc ++ concat blocks).
Proof.
  revert doc. induction data as [|it data IH]; intros doc; simpl.
  - by rewrite app_nil_r.
  - rewrite add_item_blocks.
    destruct (item_blocks it) as [blocks|]; simpl; [|done].
    rewrite IH. destruct (mapM item_blocks data); simpl; [|done].
    by rewrite <- app_assoc.
Qed.

Lemma assemble_blocks data :
  assemble data
  = blocks ← mapM item_blocks data;
    Some (title_heading :: intro_paragraph :: concat blocks).
Proof.
  unfold assemble.
  change (add_heading (py "Exact Text Extraction from Images & PDFs") 0)
    with (Some title_heading).
  change (add_paragraph (py "Files processed in order shown above."))
    with (Some intro_paragraph).
  simpl. apply add_items_mapM.
Qed.

Lemma assemble_is_Some data :
  is_Some (assemble data) ↔ Forall xml_clean data.
Proof.
  rewrite assemble_blocks, bind1_is_Some, mapM_is_Some. apply Forall_iff. intros it. simpl.
  apply item_blocks_is_Some.
Qed.

Lemma source_header_reads it header :
  source_header it = Some header →
  (∃ content,
     header = Paragraph [{| run_content := content; bold := true;
                            font_size := Some 12; font_name := None |}])
  ∧ block_text header = py "Source: " ++ breaks_as_lf (filename it).
Proof.
  unfold source_header.
  intros (content & Hrun & [= <-])%bind_Some. split; [by exists content|].
  unfold block_text, run_text. simpl.
  rewrite app_nil_r, (add_run_text _ _ Hrun).
  unfold breaks_as_lf. by rewrite fmap_app.
Qed.

Lemma line_paragraph_reads line para :
  line_paragraph line = Some para →
  (∃ content,
     para = Paragraph [{| run_content := content; bold := false;
                          font_size := Some 11;
                          font_name := Some (py "Nirmala UI") |}])
  ∧ block_text para = breaks_as_lf line.
Proof.
  unfold line_paragraph.
  intros (content & Hrun & [= <-])%bind_Some. split; [by exists content|].
  unfold block_text, run_text. simpl.
  by rewrite app_nil_r, (add_run_text _ _ Hrun).
Qed.

End Assembler.




(** ** A failed upload *)

Section FailedUpload.

Lemma strip_fixed_ends c t d :
  is_space c = false → is_space d = false →
  strip (c :: t ++ [d]) = c :: t ++ [d].
Proof.
  intros Hc Hd. unfold strip. rewrite lstrip_fixed by done.
  change (c :: t ++ [d]) with ((c :: t) ++ [d]).
  by rewrite rstrip_snoc, Hd.
Qed.

Lemma normalize_one_line s : LF ∉ s → normalize s = strip s.
Proof.
  intros Hs. rewrite normalize_eq, split_line by by apply Forall_not_elem.
  done.
Qed.

(** The placeholder of a one-line message passes the normalisation as it
    is. *)
Lemma normalize_gemini_error e :
  LF ∉ e → normalize (gemini_error e) = gemini_error e.
Proof.
  intros He. rewrite normalize_one_line.
  - unfold gemini_error.
    change (py "[Gemini error: " ++ e ++ py "]")
      with (91 :: (py "Gemini error: " ++ e) ++ [93]).
    by apply strip_fixed_ends.
  - unfold gemini_error. rewrite !not_elem_of_app. split; [|split; [done|]].
    + apply (bool_decide_unpack _). by vm_compute.
    + apply (bool_decide_unpack _). by vm_compute.
Qed.

End FailedUpload.

(** X10.  When the upload of a PDF fails, the model is not called for it:
    the upload is the only remote call made for the file.  The raw text
    is the Gemini placeholder with the message of the failure, and for a
    message of one line that placeholder is stored letter for letter. *)
Theorem failed_upload_stops_before_model
    (w : World) (file : UploadedFile) (s : State) (e : str) :
  file_ext file = py "pdf" →
  upload_file w (length (remote_calls s)) (Some (content file)) (name file)
    = Raise e →
  remote_calls (snd (process_file w file s))
  = remote_calls s ++ [CallUpload (Some (content file)) (name file)]
  ∧ fst (transcribe w file s) = Ok (gemini_error e)
  ∧ (LF ∉ e →
     ∃ rest,
       extracted_data (snd (process_file w file s))
       = extracted_data s
         ++ {| filename := name file; text := gemini_error e |} :: rest).
Proof.
  intros Hext Hup.
  assert (fst (transcribe w file s) = Ok (gemini_error e)) as Hraw.
  { rewrite transcribe_pdf_ext, transcribe_pdf_run by done. simpl.
    unfold pdf_call, genai_upload_file. unfold_M.
    by rewrite lookup_insert_eq, Hup. }
  split; [|split; [done|]].
  - rewrite process_file_remote_calls, transcribe_pdf_ext by done.
    by rewrite transcribe_pdf_calls, Hup.
  - intros He. pose proof (process_file_stored w file s) as Hstored.
    rewrite Hraw, normalize_gemini_error in Hstored by done.
    destruct Hstored as (rest & -> & _). by exists rest.
Qed.

Lemma failed_upload_witness :
  file_ext (upload "2.pdf") = py "pdf"
  ∧ remote_calls
      (snd (process_file (failing_upload (py "503 unavailable"))
              (upload "2.pdf") (initial ∅)))
    = [CallUpload (Some []) (py "2.pdf")]
  ∧ text <$> extracted_data
      (snd (process_file (failing_upload (py "503 unavailable"))
              (upload "2.pdf") (initial ∅)))
    = [py "[Gemini error: 503 unavailable]"].
Proof.
  assert (file_ext (upload "2.pdf") = py "pdf") as Hext by by vm_compute.
  split; [exact Hext|].
  destruct (failed_upload_stops_before_model
              (failing_upload (py "503 unavailable")) (upload "2.pdf")
              (initial ∅) (py "503 unavailable") Hext eq_refl)
    as (Hcalls & _ & _).
  split; [exact Hcalls|]. by vm_compute.
Defined.

(** ** The script from top to bottom *)

Section Script.

Lemma item_blocks_header it blocks :
  item_blocks it = Some blocks →
  ∃ header rest,
    blocks = header :: rest
    ∧ block_text header = py "Source: " ++ breaks_as_lf (filename it).
Proof.
  unfold item_blocks.
  intros (header & Hheader & (paras & _ & [= <-])%bind_Some)%bind_Some.
  exists header, (paras ++ [separator]). split; [done|].
  by apply source_header_reads.
Qed.

(** The headers of a document, in the order of the entries. *)
Lemma header_texts_sublist data blocks :
  mapM item_blocks data = Some blocks →
  (λ it, py "Source: " ++ breaks_as_lf (filename it)) <$> data
  `sublist_of` block_text <$> concat blocks.
Proof.
  intros Hblocks%mapM_Some.
  induction Hblocks as [|it bs data blocks Hit _ IH]; [done|].
  destruct (item_blocks_header it bs Hit) as (header & rest & -> & Htext).
  csimpl. rewrite Htext. apply sublist_skip.
  rewrite fmap_app. by apply sublist_inserts_l.
Qed.

End Script.

(** X11.  Behind the gate nothing runs: without an API key, without a
    press of the button, without an upload, or when the model cannot be
    initialised, a run of the script makes no remote call, creates no
    file, stores no result and offers no document; all it does to the
    state is to start from an empty result list. *)
Theorem nothing_runs_behind_the_gate
    (w : World) (model_init : outcome unit) (API_KEY : option str)
    (uploaded_files : list UploadedFile) (button : bool) (s : State) :
  has_api_key API_KEY = false ∨ button = false ∨ uploaded_files = []
  ∨ (∃ e, model_init = Raise e) →
  snd (script w model_init API_KEY uploaded_files button s)
  = set_extracted_data [] s
  ∧ ∀ order doc,
      below (fst (script w model_init API_KEY uploaded_files button s))
      ≠ Extracted order doc.
Proof.
  intros Hgate. unfold script.
  destruct uploaded_files as [|f files]; [done|].
  destruct button; [|done].
  destruct (has_api_key API_KEY); simpl; [|done].
  destruct Hgate as [?|[?|[?|[e ->]]]]; done.
Qed.

Lemma nothing_runs_witness :
  has_api_key (Some []) = false
  ∧ snd (script by_kind (Ok ()) (Some []) [upload "1.jpg"] true (initial ∅))
    = initial ∅.
Proof.
  split; [done|].
  exact (proj1 (nothing_runs_behind_the_gate by_kind (Ok ()) (Some [])
                  [upload "1.jpg"] true (initial ∅) (or_introl eq_refl))).
Defined.

(** X12.  With uploads and the button pressed, a missing key stops the
    run with the warning before the model is even initialised, and with a
    key a failure of the initialisation stops it with the message of the
    failure; in both cases the order of processing is on the page.  The
    banner about the key is there exactly when the key is missing. *)
Theorem stopped_runs_say_why
    (w : World) (model_init : outcome unit) (API_KEY : option str)
    (f : UploadedFile) (files : list UploadedFile) (s : State) :
  let uploaded_files := f :: files in
  let order := processing_order (sorted extract_number uploaded_files) in
  let p := fst (script w model_init API_KEY uploaded_files true s) in
  (has_api_key API_KEY = false →
   below p = StoppedWithoutKey order
               (py "Set GOOGLE_API_KEY in .env or secrets.")
   ∧ key_error p = Some key_not_found)
  ∧ (has_api_key API_KEY = true →
     key_error p = None
     ∧ ∀ e, model_init = Raise e →
            below p = StoppedAtModel order
                        (py "Failed to initialize model: " ++ e)).
Proof.
  intros uploaded_files order p. unfold p, script.
  split; intros Hkey; rewrite Hkey; simpl; [done|].
  split.
  - by repeat case_match.
  - by intros e ->.
Qed.

Lemma stopped_runs_witness :
  has_api_key None = false
  ∧ below (fst (script by_kind (Raise (py "no such model")) None
                  [upload "1.jpg"] true (initial ∅)))
    = StoppedWithoutKey [py "1. `1.jpg` " ++ [8594] ++ py " Q1"]
        (py "Set GOOGLE_API_KEY in .env or secrets.").
Proof.
  split; [done|].
  exact (proj1 (proj1 (stopped_runs_say_why by_kind
                         (Raise (py "no such model")) None
                         (upload "1.jpg") [] (initial ∅)) eq_refl)).
Defined.

(** X13.  With a key, a model and the button pressed, a run over uploads
    goes through the whole batch and then assembles the document.  When
    the document library takes every file name and text of the entries,
    the run ends with the document: it begins with the title and the
    introduction and names every upload as a source, in the order of
    processing.  Otherwise the assembly raises, nothing catches it, and
    the run ends without a document. *)
Theorem pressed_run_ends_with_document
    (w : World) (API_KEY : option str)
    (f : UploadedFile) (files : list UploadedFile) (s : State) :
  has_api_key API_KEY = true →
  let uploaded_files := f :: files in
  let order := processing_order (sorted extract_number uploaded_files) in
  let s' := snd (run_batch w uploaded_files (set_extracted_data [] s)) in
  let p := script w (Ok ()) API_KEY uploaded_files true s in
  snd p = s'
  ∧ key_error (fst p) = None
  ∧ (Forall xml_clean (extracted_data s') →
     ∃ doc,
       assemble (extracted_data s') = Some doc
       ∧ below (fst p) = Extracted order doc
       ∧ take 2 doc = [title_heading; intro_paragraph]
       ∧ (λ g, py "Source: " ++ breaks_as_lf (name g))
           <$> sorted extract_number uploaded_files
         `sublist_of` block_text <$> doc)
  ∧ (¬ Forall xml_clean (extracted_data s') →
     below (fst p) = AssemblyFailed order).
Proof.
  intros Hkey uploaded_files order s' p.
  assert (p = match assemble (extracted_data s') with
              | Some doc =>
                  ({| key_error := None; below := Extracted order doc |}, s')
              | None =>
                  ({| key_error := None; below := AssemblyFailed order |}, s')
              end) as Hp.
  { unfold p, script. rewrite Hkey. simpl.
    pose proof (run_batch_ok w uploaded_files (set_extracted_data [] s)) as Hok.
    unfold s', order, run_batch in *.
    by destruct ((clear;; for_each _ _) _) as [[[]|] ?]. }
  rewrite Hp. clear Hp.
  pose proof (assemble_is_Some (extracted_data s')) as Hsome.
  pose proof (assemble_blocks (extracted_data s')) as Hblocks.
  destruct (assemble (extracted_data s')) as [doc|].
  - split; [done|]. split; [done|]. split.
    + intros _. exists doc. split; [done|]. split; [done|].
      symmetry in Hblocks.
      apply bind_Some in Hblocks as (blocks & Hmap & [= <-]).
      split; [done|]. rewrite !fmap_cons. do 2 apply sublist_cons.
      etrans; [|by apply header_texts_sublist].
      rewrite (list_fmap_compose name (λ n, py "Source: " ++ breaks_as_lf n)).
      rewrite (list_fmap_compose filename
                 (λ n, py "Source: " ++ breaks_as_lf n)).
      apply fmap_sublist, run_batch_names_sublist.
    + intros Hbad. destruct Hbad. by apply Hsome.
  - split; [done|]. split; [done|]. split; [|done].
    intros Hclean. apply Hsome in Hclean. by destruct Hclean.
Qed.
Lemma pressed_run_witness :
  has_api_key (Some (py "key")) = true
  ∧ (∃ order doc,
       below (fst (script by_kind (Ok ()) (Some (py "key"))
                     [upload "2.jpg"; upload "1.pdf"] true (initial ∅)))
       = Extracted order doc
       ∧ block_text <$> doc
         = [py "Exact Text Extraction from Images & PDFs";
            py "Files processed in order shown above.";
            py "Source: 1.pdf"; py "Apage"; replicate 60 95;
            py "Source: 2.jpg"; py "Bpage"; replicate 60 95])
  ∧ (∃ order,
       below (fst (script (answering (Ok (Some [65; 12; 66]))) (Ok ())
                     (Some (py "key")) [upload "1.png"] true (initial ∅)))
       = AssemblyFailed order).
Proof.
  split; [done|]. split.
  - destruct (pressed_run_ends_with_document by_kind (Some (py "key"))
                (upload "2.jpg") [upload "1.pdf"] (initial ∅) eq_refl)
      as (_ & _ & Hdoc & _).
    destruct Hdoc as (doc & Hassemble & Hbelow & _).
    { apply assemble_is_Some. eexists. by vm_compute. }
    eexists _, doc. split; [exact Hbelow|].
    vm_compute in Hassemble. injection Hassemble as <-. by vm_compute.
  - destruct (pressed_run_ends_with_document
                (answering (Ok (Some [65; 12; 66]))) (Some (py "key"))
                (upload "1.png") [] (initial ∅) eq_refl)
      as (_ & _ & _ & Hfail).
    eexists. apply Hfail.
    intros Hclean%assemble_is_Some. vm_compute in Hclean.
    by destruct Hclean.
Defined.

(** ** The document keeps the entries apart *)

Section Injective.

Lemma app_stop_inj {A} (P : A → Prop) a a' x x' r r' :
  Forall P a → Forall P a' → ¬ P x → ¬ P x' →
  a ++ x :: r = a' ++ x' :: r' → a = a' ∧ r = r'.
Proof.
  intros Ha. revert a'.
  induction Ha as [|y a Hy _ IH]; intros a' Ha' Hx Hx' Heq.
  - destruct Ha' as [|y' a' Hy' _]; simpl in *.
    + by injection Heq as _ ->.
    + injection Heq as -> _. done.
  - destruct Ha' as [|y' a' Hy' Ha']; simpl in *.
    + injection Heq as -> _. done.
    + injection Heq as -> Heq. destruct (IH a' Ha' Hx Hx' Heq) as [-> ->].
      done.
Qed.

Lemma split_inj s t : split LF s = split LF t → s = t.
Proof.
  intros Heq. by rewrite <- (join_split LF s), Heq, join_split.
Qed.

(** A run does not tell a carriage return from a line feed. *)
Lemma append_to_run_breaks bfr s :
  append_to_run bfr (breaks_as_lf s) = append_to_run bfr s.
Proof.
  revert bfr. induction s as [|c s IH]; intros bfr; [done|].
  unfold breaks_as_lf in *. rewrite fmap_cons.
  destruct (N.eqb_spec c 13) as [->|Hcr]; simpl.
  - by rewrite IH.
  - destruct (c =? 9); [by rewrite IH|].
    destruct ((c =? 13) || (c =? 10)); by rewrite IH.
Qed.

Lemma breaks_as_lf_app s t :
  breaks_as_lf (s ++ t) = breaks_as_lf s ++ breaks_as_lf t.
Proof. apply fmap_app. Qed.

Lemma add_run_breaks s t :
  breaks_as_lf s = breaks_as_lf t → add_run s = add_run t.
Proof.
  intros Heq. unfold add_run.
  by rewrite <- (append_to_run_breaks [] s), Heq, append_to_run_breaks.
Qed.

(** Within a line there is no line feed, so a line can be read off its
    run. *)
Lemma breaks_as_lf_line l k :
  Forall (λ c, c ≠ LF) l → Forall (λ c, c ≠ LF) k →
  breaks_as_lf l = breaks_as_lf k → l = k.
Proof.
  intros Hl. revert k.
  induction Hl as [|c l Hc _ IH]; intros k Hk; destruct Hk as [|d k Hd Hk];
    try done.
  unfold breaks_as_lf in *. rewrite !fmap_cons. intros [= Hhead Htail].
  f_equal; [|by apply IH].
  destruct (N.eqb_spec c 13) as [->|_], (N.eqb_spec d 13) as [->|_];
    congruence.
Qed.

Lemma line_paragraphs_inj ls ks paras :
  Forall (Forall (λ c, c ≠ LF)) ls → Forall (Forall (λ c, c ≠ LF)) ks →
  mapM line_paragraph ls = Some paras →
  mapM line_paragraph ks = Some paras →
  ls = ks.
Proof.
  intros Hls Hks Hl%mapM_Some Hk%mapM_Some. revert ks Hks Hk.
  induction Hl as [|l para ls paras Hpara _ IH]; intros ks Hks Hk.
  - by inversion Hk.
  - inversion Hk as [|k ? ks' ? Hpara' Hk']; subst.
    apply Forall_cons in Hls as [Hl Hls]. apply Forall_cons in Hks as [Hk0 Hks].
    f_equal; [|by apply IH].
    apply breaks_as_lf_line; [done..|].
    by rewrite <- (proj2 (line_paragraph_reads _ _ Hpara)),
      <- (proj2 (line_paragraph_reads _ _ Hpara')).
Qed.

Lemma line_paragraphs_not_separator ls paras :
  mapM line_paragraph ls = Some paras →
  Forall (λ b, b ≠ separator) paras.
Proof.
  intros Hl%mapM_Some.
  induction Hl as [|l para ls paras Hpara _ IH]; constructor; [|done].
  destruct (proj1 (line_paragraph_reads _ _ Hpara)) as [content ->]. done.
Qed.

Lemma item_blocks_inj it it' blocks blocks' rest rest' :
  item_blocks it = Some blocks → item_blocks it' = Some blocks' →
  blocks ++ rest = blocks' ++ rest' →
  breaks_as_lf (filename it) = breaks_as_lf (filename it')
  ∧ text it = text it' ∧ rest = rest'.
Proof.
  unfold item_blocks.
  intros (header & Hheader & (paras & Hparas & [= <-])%bind_Some)%bind_Some.
  intros (header' & Hheader' & (paras' & Hparas' & [= <-])%bind_Some)%bind_Some.
  simpl. rewrite <- !app_assoc. simpl. intros [= <- Hrest].
  apply (app_stop_inj (λ b, b ≠ separator)) in Hrest as [<- ->];
    [|by eapply line_paragraphs_not_separator..|by intros ?|by intros ?].
  split; [|split; [|done]].
  - apply (app_inv_head (py "Source: ")).
    by rewrite <- (proj2 (source_header_reads _ _ Hheader)),
      <- (proj2 (source_header_reads _ _ Hheader')).
  - apply split_inj.
    apply (line_paragraphs_inj _ _ paras); [apply split_no_sep..|done|done].
Qed.

Lemma concat_item_blocks_inj d1 d2 blocks1 blocks2 :
  mapM item_blocks d1 = Some blocks1 → mapM item_blocks d2 = Some blocks2 →
  concat blocks1 = concat blocks2 →
  (λ it, (breaks_as_lf (filename it), text it)) <$> d1
  = (λ it, (breaks_as_lf (filename it), text it)) <$> d2.
Proof.
  intros H1%mapM_Some H2%mapM_Some. revert d2 blocks2 H2.
  induction H1 as [|it bs d1 blocks1 Hit _ IH]; intros d2 blocks2 H2 Heq.
  - destruct H2 as [|it' bs' d2 blocks2 Hit' _]; [done|].
    unfold item_blocks in Hit'.
    apply bind_Some in Hit' as (? & _ & (? & _ & [= <-])%bind_Some). done.
  - destruct H2 as [|it' bs' d2 blocks2 Hit' H2].
    + unfold item_blocks in Hit.
      apply bind_Some in Hit as (? & _ & (? & _ & [= <-])%bind_Some). done.
    + simpl in Heq.
      destruct (item_blocks_inj _ _ _ _ _ _ Hit Hit' Heq) as (Hn & Ht & Hrest).
      rewrite !fmap_cons, Hn, Ht. f_equal. by apply (IH d2 blocks2).
Qed.

Lemma item_blocks_breaks it it' :
  breaks_as_lf (filename it) = breaks_as_lf (filename it') →
  text it = text it' →
  item_blocks it = item_blocks it'.
Proof.
  intros Hn Ht. unfold item_blocks, source_header. rewrite Ht.
  rewrite (add_run_breaks (py "Source: " ++ filename it)
             (py "Source: " ++ filename it')); [done|].
  by rewrite !breaks_as_lf_app, Hn.
Qed.

Lemma mapM_item_blocks_breaks d1 d2 :
  (λ it, (breaks_as_lf (filename it), text it)) <$> d1
  = (λ it, (breaks_as_lf (filename it), text it)) <$> d2 →
  mapM item_blocks d1 = mapM item_blocks d2.
Proof.
  revert d2. induction d1 as [|it d1 IH]; intros [|it' d2]; try done.
  rewrite !fmap_cons. intros [= Hn Ht Hrest]. simpl.
  by rewrite (item_blocks_breaks it it'), (IH d2).
Qed.

End Injective.

(** X15.  The document tells the result collections apart, up to what a
    run cannot show: in a file name a carriage return is written as a
    line break like a line feed.  Two collections with the same texts and
    the same file names up to that give the same document, or both none;
    and two collections that give the same document have the same
    entries, with the same texts and the same file names up to that. *)
Theorem different_results_different_documents (d1 d2 : list item) :
  let read := λ it : item, (breaks_as_lf (filename it), text it) in
  (read <$> d1 = read <$> d2 → assemble d1 = assemble d2)
  ∧ (is_Some (assemble d1) → assemble d1 = assemble d2 →
     read <$> d1 = read <$> d2).
Proof.
  intros read. rewrite !assemble_blocks. split.
  - intros Hread. by rewrite (mapM_item_blocks_breaks d1 d2).
  - intros [doc Hdoc] Heq. rewrite Hdoc in Heq. symmetry in Heq.
    apply bind_Some in Hdoc as (blocks1 & H1 & [= <-]).
    apply bind_Some in Heq as (blocks2 & H2 & [= Heq]).
    by apply (concat_item_blocks_inj d1 d2 blocks1 blocks2).
Qed.

Lemma different_documents_witness :
  let d1 := [{| filename := py "a" ++ 13 :: py "b.png"; text := py "one" |}] in
  let d2 := [{| filename := py "a" ++ LF :: py "b.png"; text := py "one" |}] in
  let d3 := [{| filename := py "1.pdf"; text := py "a" |};
             {| filename := py "b"; text := [] |}] in
  let d4 := [{| filename := py "1.pdf"; text := py "a" ++ LF :: py "b" |}] in
  d1 ≠ d2 ∧ assemble d1 = assemble d2
  ∧ is_Some (assemble d3) ∧ assemble d3 ≠ assemble d4.
Proof.
  intros d1 d2 d3 d4.
  split; [done|]. split.
  - by apply (proj1 (different_results_different_documents d1 d2)).
  - assert (is_Some (assemble d3)) as Hdoc.
    { eexists. by vm_compute. }
    split; [exact Hdoc|]. intros Heq.
    by pose proof (proj2 (different_results_different_documents d3 d4)
                     Hdoc Heq).
Defined.

(** X16.  Only what follows the last dot of a name decides the kind, and
    in any ASCII letter case.  For a name [stem.e] with no dot in [e] the
    extension is [e] in lower case as it stands in the name: the lower
    case of a capital sigma depends on the letters before it, across the
    dot.  The extension is one of jpg, jpeg, png and pdf exactly when [e]
    is that word up to ASCII capitals, whatever the stem.  When it is
    none of them, an empty [e] after a final dot included, the file is
    unsupported and nothing is called. *)
Theorem extension_is_after_last_dot
    (w : World) (stem e : str) (data : bytes) (s : State) :
  DOT ∉ e →
  let file := {| name := stem ++ DOT :: e; content := data |} in
  file_ext file = lower_from (DOT :: reverse stem) e
  ∧ (∀ kind,
       kind ∈ [py "jpg"; py "jpeg"; py "png"; py "pdf"] →
       file_ext file = kind ↔ fold_ascii e = kind)
  ∧ (fold_ascii e ∉ [py "jpg"; py "jpeg"; py "png"; py "pdf"] →
     transcribe w file s = (Ok unsupported_file_type, s))
  ∧ (e = [] → transcribe w file s = (Ok unsupported_file_type, s)).
Proof.
  intros He file.
  assert (file_ext file = lower_from (DOT :: reverse stem) e) as Hext.
  { destruct (lower_from_dot [] stem e) as [pre Hpre].
    rewrite app_nil_r in Hpre.
    apply (file_ext_after_last_dot file pre); [done|].
    by apply lower_from_no_dot. }
  assert (∀ kind,
            kind ∈ [py "jpg"; py "jpeg"; py "png"; py "pdf"] →
            file_ext file = kind ↔ fold_ascii e = kind) as Hkind.
  { intros kind Hin. rewrite Hext. apply lower_from_ext_word.
    rewrite !elem_of_cons, elem_of_nil in Hin.
    destruct Hin as [->|[->|[->|[->|[]]]]];
      apply (bool_decide_unpack _); by vm_compute. }
  assert (fold_ascii e ∉ [py "jpg"; py "jpeg"; py "png"; py "pdf"] →
          transcribe w file s = (Ok unsupported_file_type, s)) as Hunsupported.
  { intros Hnone. apply transcribe_unsupported. intros Hin.
    apply Hnone. by rewrite (proj1 (Hkind _ Hin) eq_refl). }
  split; [done|]. split; [done|]. split; [done|].
  intros ->. apply Hunsupported.
  apply (bool_decide_unpack _). by vm_compute.
Qed.

Lemma extension_witness :
  (DOT ∉ py "PdF")
  ∧ file_ext (upload "Scan.v2.PdF") = py "pdf"
  ∧ (DOT ∉ [SIGMA])
  ∧ file_ext {| name := py "A" ++ DOT :: [SIGMA]; content := [] |} = [962]
  ∧ lower [SIGMA] = [963]
  ∧ transcribe by_kind (upload "archive.") (initial ∅)
    = (Ok (py "[Unsupported file type]"), initial ∅).
Proof.
  assert (DOT ∉ py "PdF") as Hdot.
  { apply (bool_decide_unpack _). by vm_compute. }
  assert (DOT ∉ [SIGMA]) as Hsigma.
  { apply (bool_decide_unpack _). by vm_compute. }
  split; [exact Hdot|]. split.
  { apply (proj1 (proj2 (extension_is_after_last_dot by_kind (py "Scan.v2")
                           (py "PdF") [] (initial ∅) Hdot))).
    - apply (bool_decide_unpack _). by vm_compute.
    - by vm_compute. }
  split; [exact Hsigma|]. split.
  { etrans; [|by vm_compute].
    exact (proj1 (extension_is_after_last_dot by_kind (py "A") [SIGMA] []
                    (initial ∅) Hsigma)). }
  split; [by vm_compute|].
  assert (DOT ∉ @nil N) as Hnil by apply not_elem_of_nil.
  exact (proj2 (proj2 (proj2 (extension_is_after_last_dot by_kind
                                (py "archive") [] [] (initial ∅) Hnil)))
           eq_refl).
Defined.

(** ** A transcription on its way into the results *)

Section Lossless.

Context (w : World).

Lemma text_of_response_text r t s :
  response_text r = Ok (Some t) → t ≠ [] →
  text_of_response r s = (Ok (strip t), s).
Proof.
  intros Hr Ht. unfold text_of_response. unfold_M. rewrite Hr.
  by destruct t.
Qed.

Lemma transcribe_image_text file s img r t :
  file_ext file ∈ image_exts →
  image_open w (content file) = Ok img →
  generate_content w (length (remote_calls s))
    [PText prompt_image; PImage img] = Ok r →
  response_text r = Ok (Some t) → t ≠ [] →
  fst (transcribe w file s) = Ok (strip t).
Proof.
  intros Hext Himg Hgen Hr Ht. unfold transcribe.
  rewrite decide_True by done.
  unfold transcribe_image, open_image, model_generate_content. unfold_M.
  rewrite Himg. simpl. rewrite Hgen. simpl.
  by rewrite (text_of_response_text r t).
Qed.

Lemma transcribe_pdf_text file s h r t :
  file_ext file = py "pdf" →
  upload_file w (length (remote_calls s)) (Some (content file)) (name file)
    = Ok h →
  generate_content w (S (length (remote_calls s)))
    [PText prompt_pdf; PFile h] = Ok r →
  response_text r = Ok (Some t) → t ≠ [] →
  fst (transcribe w file s) = Ok (strip t).
Proof.
  intros Hext Hup Hgen Hr Ht.
  rewrite transcribe_pdf_ext, transcribe_pdf_run by done. simpl.
  unfold pdf_call, genai_upload_file, model_generate_content. unfold_M.
  rewrite lookup_insert_eq, Hup. simpl.
  rewrite length_app, Nat.add_1_r, Hgen. simpl.
  by rewrite (text_of_response_text r t).
Qed.

Lemma filter_strip t :
  filter (λ c, is_space c = false) (strip t)
  = filter (λ c, is_space c = false) t.
Proof. unfold strip. by rewrite filter_rstrip, filter_lstrip. Qed.

Lemma stored_after_transcription file s raw :
  fst (transcribe w file s) = Ok raw →
  ∃ rest,
    extracted_data (snd (process_file w file s))
    = extracted_data s
      ++ {| filename := name file; text := normalize raw |} :: rest.
Proof.
  intros Hraw. pose proof (process_file_stored w file s) as Hstored.
  rewrite Hraw in Hstored. destruct Hstored as (rest & -> & _).
  by exists rest.
Qed.

End Lossless.

(** X17.  When the calls for a file succeed and the model answers with a
    text, the raw text is that text stripped and the entry stored for the
    file holds its normalisation, in which every character of the answer
    that is not whitespace stands, in the order of the answer.  This is
    so for an image and for a PDF, whose model call is the one after the
    upload. *)
Theorem transcription_is_stored_without_loss
    (w : World) (file : UploadedFile) (s : State) (t : str) :
  t ≠ [] →
  (∀ img r,
     file_ext file ∈ image_exts →
     image_open w (content file) = Ok img →
     generate_content w (length (remote_calls s))
       [PText prompt_image; PImage img] = Ok r →
     response_text r = Ok (Some t) →
     fst (transcribe w file s) = Ok (strip t)
     ∧ ∃ rest,
         extracted_data (snd (process_file w file s))
         = extracted_data s
           ++ {| filename := name file; text := normalize (strip t) |}
              :: rest)
  ∧ (∀ h r,
       file_ext file = py "pdf" →
       upload_file w (length (remote_calls s)) (Some (content file))
         (name file) = Ok h →
       generate_content w (S (length (remote_calls s)))
         [PText prompt_pdf; PFile h] = Ok r →
       response_text r = Ok (Some t) →
       fst (transcribe w file s) = Ok (strip t)
       ∧ ∃ rest,
           extracted_data (snd (process_file w file s))
           = extracted_data s
             ++ {| filename := name file; text := normalize (strip t) |}
                :: rest)
  ∧ filter (λ c, is_space c = false) (normalize (strip t))
    = filter (λ c, is_space c = false) t.
Proof.
  intros Ht. split; [|split].
  - intros img r Hext Himg Hgen Hr.
    assert (fst (transcribe w file s) = Ok (strip t)) as Hraw
      by by apply (transcribe_image_text w file s img r).
    split; [done|]. by apply stored_after_transcription.
  - intros h r Hext Hup Hgen Hr.
    assert (fst (transcribe w file s) = Ok (strip t)) as Hraw
      by by apply (transcribe_pdf_text w file s h r).
    split; [done|]. by apply stored_after_transcription.
  - by rewrite normalize_filter_nonspace, filter_strip.
Qed.

Lemma transcription_witness :
  py "  Apage " ≠ []
  ∧ fst (transcribe (answering (Ok (Some (py "  Apage "))))
           (upload "2.pdf") (initial ∅))
    = Ok (py "Apage")
  ∧ fst (transcribe (answering (Ok (Some (py "  Apage "))))
           (upload "1.jpg") (initial ∅))
    = Ok (py "Apage").
Proof.
  assert (py "  Apage " ≠ []) as Ht by done.
  split; [exact Ht|]. split.
  - exact (proj1 (proj1 (proj2 (transcription_is_stored_without_loss
                                  (answering (Ok (Some (py "  Apage "))))
                                  (upload "2.pdf") (initial ∅)
                                  (py "  Apage ") Ht))
                    {| handle_uri := py "files/1" |}
                    {| response_text := Ok (Some (py "  Apage ")) |}
                    eq_refl eq_refl eq_refl eq_refl)).
  - assert (file_ext (upload "1.jpg") ∈ image_exts) as Hext.
    { apply (bool_decide_unpack _). by vm_compute. }
    exact (proj1 (proj1 (transcription_is_stored_without_loss
                           (answering (Ok (Some (py "  Apage "))))
                           (upload "1.jpg") (initial ∅)
                           (py "  Apage ") Ht)
                    {| image_data := [] |}
                    {| response_text := Ok (Some (py "  Apage ")) |}
                    Hext eq_refl eq_refl eq_refl)).
Defined.
